(** * A document-grounded chat service: ingestion and answer pipeline

    Shallow embedding of [populate_database.py], [model.py] and [app.py].

    The first part holds the definitions: a module for the Python values
    the three files share, then modules for the source files
    ([PopulateDatabase] and [Ingestor] for [populate_database.py],
    [ChatMessage] for [model.py], [App] and [Routes] for [app.py]).  The
    second part holds the lemmas and the theorems about them.

    Python values are dynamically typed.  The metadata dictionary of a
    langchain [Document] is modelled as a finite map from key strings to
    [value]s, a value being an integer or a string; the typing side
    conditions the theorems need are stated explicitly as boolean
    predicates on chunks. *)

From Stdlib Require Import ZArith String Ascii List SpecFloat.
From stdpp Require Import base option list strings pretty gmap sorting.

Local Open Scope Z_scope.

(** ** Python values, strings and documents *)

Module Py.

(** A metadata value: [page] and [start_index] are integers, [source] and
    [id] are strings. *)
Inductive value : Type :=
| VInt (z : Z)
| VStr (s : string).

#[global] Instance value_eq_dec : EqDecision value.
Proof. solve_decision. Defined.

(** [f"{v}"]: an integer prints in decimal with a leading minus sign when
    negative, a string prints as itself. *)
Definition fmt (v : value) : string :=
  match v with
  | VInt z => pretty z
  | VStr s => s
  end.

(** Truthiness, as in [if source:]. *)
Definition truthy (v : value) : bool :=
  match v with
  | VInt z => negb (z =? 0)
  | VStr EmptyString => false
  | VStr _ => true
  end.

(** The line feed character and the one-character separators. *)
Definition nl : string := String "010"%char EmptyString.
Definition colon : string := String ":"%char EmptyString.

(** [all_chars p s]: every character of [s] satisfies [p]. *)
Fixpoint all_chars (p : ascii -> bool) (s : string) : bool :=
  match s with
  | EmptyString => true
  | String a r => p a && all_chars p r
  end.

(** The characters of a printed integer, and the characters other than
    the separator. *)
Definition numeric_char (a : ascii) : bool :=
  Ascii.eqb a "-"
  || ((48 <=? nat_of_ascii a)%nat && (nat_of_ascii a <=? 57)%nat).
Definition not_colon (a : ascii) : bool := negb (Ascii.eqb a ":").

(** [needle in hay] on strings: substring containment. *)
Fixpoint contains (needle hay : string) : bool :=
  String.prefix needle hay ||
  match hay with
  | EmptyString => false
  | String _ r => contains needle r
  end.

(** [sep.join(parts)]. *)
Fixpoint join (sep : string) (parts : list string) : string :=
  match parts with
  | [] => EmptyString
  | [p] => p
  | p :: rest => p +:+ sep +:+ join sep rest
  end.

(** [l[-n:]]: the last [n] elements, all of them when there are fewer. *)
Definition last_n {A} (n : nat) (l : list A) : list A :=
  drop (length l - n) l.

(** langchain's [Document]. *)
Record Document : Type := mkDocument {
  page_content : string;
  metadata : gmap string value
}.

#[global] Instance Document_eq_dec : EqDecision Document.
Proof. solve_decision. Defined.

(** [doc.metadata[k] = v], the in-place update of one key. *)
Definition set_metadata (doc : Document) (k : string) (v : value) : Document :=
  {| page_content := page_content doc;
     metadata := <[k := v]> (metadata doc) |}.

End Py.

(** ** populate_database.py *)

Module PopulateDatabase.
Import Py.

(** The two loop variables of [calculate_chunk_ids]. *)
Record id_state : Type := mkIdState {
  last_identifier : option string;
  current_idx : nat
}.

(** [chunk.metadata.get("source", "unknown")]. *)
Definition chunk_source (chunk : Document) : value :=
  default (VStr "unknown") (metadata chunk !! "source").

(** The [if "page" in ... elif "start_index" in ... else] cascade. *)
Definition chunk_identifier (chunk : Document) : value :=
  match metadata chunk !! "page" with
  | Some page => page
  | None =>
      match metadata chunk !! "start_index" with
      | Some start_index => start_index
      | None => VStr "unknown"
      end
  end.

(** [f"{source}:{identifier}"]. *)
Definition current_identifier (chunk : Document) : string :=
  fmt (chunk_source chunk) +:+ colon +:+ fmt (chunk_identifier chunk).

(** One iteration of the loop body: the new loop variables and the chunk
    with its [id] written. *)
Definition assign_chunk_id (st : id_state) (chunk : Document)
  : id_state * Document :=
  let cur := current_identifier chunk in
  let idx :=
    if decide (Some cur = last_identifier st)
    then S (current_idx st) else 0%nat in
  let chunk_id := cur +:+ colon +:+ pretty idx in
  (mkIdState (Some cur) idx, set_metadata chunk "id" (VStr chunk_id)).

(** The loop, keeping after each iteration the loop variables next to the
    chunk that iteration wrote. *)
Fixpoint id_loop (st : id_state) (chunks : list Document)
  : list (id_state * Document) :=
  match chunks with
  | [] => []
  | chunk :: rest =>
      let r := assign_chunk_id st chunk in
      r :: id_loop (fst r) rest
  end.

Definition id_init : id_state := mkIdState None 0.

(** [calculate_chunk_ids]: the chunks, each with its [id] set. *)
Definition calculate_chunk_ids (chunks : list Document) : list Document :=
  map snd (id_loop id_init chunks).

(** The value of [current_idx] at the end of each iteration. *)
Definition assigned_ordinals (chunks : list Document) : list nat :=
  map (fun r => current_idx (fst r)) (id_loop id_init chunks).

(** [c.metadata["id"]]: [None] stands for the [KeyError] of a chunk
    without id (and for an id that is not a string, which the vector
    store refuses). *)
Definition doc_id (c : Document) : option string :=
  match metadata c !! "id" with
  | Some (VStr s) => Some s
  | _ => None
  end.

(** The identifiers [calculate_chunk_ids] assigns, in order. *)
Definition chunk_ids (chunks : list Document) : list (option string) :=
  map doc_id (calculate_chunk_ids chunks).

(** The Chroma collection: stored documents keyed by identifier.
    [db.get(include=[])["ids"]] is the domain of the map.
    [db.add_documents(docs, ids=ids)] upserts each document under its id;
    the store first checks the batch and refuses one in which an id occurs
    twice ([DuplicateIDError]), writing nothing: [None] stands for that
    exception. *)
Definition upsert_all (db : gmap string Document)
    (docs : list Document) (ids : list string) : gmap string Document :=
  foldl (fun d '(i, c) => <[i := c]> d) db (zip ids docs).

Definition add_documents (db : gmap string Document)
    (docs : list Document) (ids : list string)
  : option (gmap string Document) :=
  if decide (NoDup ids) then Some (upsert_all db docs ids) else None.

(** [[c for c in chunks if c.metadata["id"] not in existing_ids]]. *)
Fixpoint select_new (existing_ids : gset string) (chunks : list Document)
  : option (list Document) :=
  match chunks with
  | [] => Some []
  | c :: rest =>
      i ← doc_id c;
      rest' ← select_new existing_ids rest;
      Some (if decide (i ∈ existing_ids) then rest' else c :: rest')
  end.

(** What one call of [add_to_chroma] that returns leaves behind: the
    collection, the caller's chunk list (mutated in place by
    [calculate_chunk_ids]) and the number of chunks added. *)
Record sync_result : Type := mkSync {
  db_after : gmap string Document;
  chunks_after : list Document;
  added : nat
}.

Definition add_to_chroma (db : gmap string Document)
    (chunks : list Document) : option sync_result :=
  let chunks := calculate_chunk_ids chunks in
  let existing_ids := dom db in
  new_chunks ← select_new existing_ids chunks;
  match new_chunks with
  | [] => Some (mkSync db chunks 0)
  | _ =>
      ids ← mapM doc_id new_chunks;
      db' ← add_documents db new_chunks ids;
      Some (mkSync db' chunks (length new_chunks))
  end.



(** Chunks as the loader and the splitter produce them: [source] is a
    string when present, [page] and [start_index] are integers. *)
Definition str_or_absent (o : option value) : bool :=
  match o with
  | Some (VInt _) => false
  | _ => true
  end.

Definition int_or_absent (o : option value) : bool :=
  match o with
  | Some (VStr _) => false
  | _ => true
  end.

Definition chunk_typed (chunk : Document) : bool :=
  str_or_absent (metadata chunk !! "source")
  && int_or_absent (metadata chunk !! "page")
  && int_or_absent (metadata chunk !! "start_index").

(** The pair the specification calls (sourcePath, positionKey). *)
Definition position_pair (chunk : Document) : value * value :=
  (chunk_source chunk, chunk_identifier chunk).

(** The ordinal rule in the words of the specification: going through
    the pairs in order, the counter goes up by one when the pair equals
    the pair of the chunk just before, and goes back to 0 otherwise. *)
Fixpoint ordinal_rule (previous : option (value * value)) (counter : nat)
    (pairs : list (value * value)) : list nat :=
  match pairs with
  | [] => []
  | p :: rest =>
      let ordinal :=
        if decide (previous = Some p) then S counter else 0%nat in
      ordinal :: ordinal_rule (Some p) ordinal rest
  end.

Definition spec_ordinals (pairs : list (value * value)) : list nat :=
  ordinal_rule None 0 pairs.

(** The loop variables agree with the pair the rule remembers. *)
Definition remembers (st : id_state) (previous : option (value * value))
  : Prop :=
  match previous with
  | None => last_identifier st = None
  | Some p =>
      exists c, chunk_typed c = true /\ position_pair c = p
                /\ last_identifier st = Some (current_identifier c)
  end.

(** The chunks of one (source, position) pair stand together. *)
Definition grouped (chunks : list Document) : Prop :=
  forall (i j k : nat) (ci cj ck : Document),
    (i <= j <= k)%nat ->
    chunks !! i = Some ci -> chunks !! j = Some cj -> chunks !! k = Some ck ->
    position_pair ci = position_pair ck ->
    position_pair cj = position_pair ci.

(** A chunk with a source path and a page number, for examples. *)
Definition page_chunk (text source : string) (page : Z) : Document :=
  mkDocument text (<["source" := VStr source]> (<["page" := VInt page]> ∅)).

(** A chunk as the splitter makes it from an unpaginated document: a
    source path and a start index. *)
Definition offset_chunk (text source : string) (start_index : Z)
  : Document :=
  mkDocument text
    (<["source" := VStr source]> (<["start_index" := VInt start_index]> ∅)).

End PopulateDatabase.

(** ** model.py *)

Module ChatMessage.

(** One row of the [ChatMessage] table.  [timestamp] is the reading of the
    clock when the row is inserted, in microseconds. *)
Record t : Type := mk {
  id : nat;
  chat_id : string;
  role : string;
  content : string;
  timestamp : Z
}.

Definition with_content (m : t) (c : string) : t :=
  mk (id m) (chat_id m) (role m) c (timestamp m).

End ChatMessage.

(** ** app.py *)

Module App.
Import Py.

(** *** Retrieval results and the relevance threshold *)

(** A similarity score is a binary64 float. *)
Definition score : Type := spec_float.

(** The float [1.0]. *)
Definition threshold : score := S754_finite false 4503599627370496 (-52).

(** [_score < 1.0]. *)
Definition passes (s : score) : bool := SFltb s threshold.

(** [[x for doc, _score in results if _score < 1.0]]. *)
Definition relevant (results : list (Document * score)) : list Document :=
  map fst (filter (fun r => passes (snd r) = true) results).

Definition context_separator : string :=
  nl +:+ nl +:+ "---" +:+ nl +:+ nl.

Definition py_or (s fallback : string) : string :=
  match s with
  | EmptyString => fallback
  | _ => s
  end.

(** [docs_text]. *)
Definition docs_text (results : list (Document * score)) : string :=
  py_or (join context_separator (map page_content (relevant results)))
        "No relevant documents found.".

(** [sources]: [doc.metadata.get("id", None)] of each relevant result. *)
Definition sources (results : list (Document * score))
  : list (option value) :=
  map (fun doc => metadata doc !! "id") (relevant results).

(** *** Source labels *)

Inductive exn : Type :=
| ModelError      (* the language-model stream raised *)
| IndexError      (* list index out of range *)
| TypeError.      (* [re.split] on a value that is not a string *)

#[global] Instance exn_eq_dec : EqDecision exn.
Proof. solve_decision. Defined.

(** The character class [[\\:]]: a backslash or a colon. *)
Definition is_sep (a : ascii) : bool :=
  Ascii.eqb a "092" || Ascii.eqb a ":".

(** [re.split(r'[\\:]', s)]: one more segment than separators. *)
Fixpoint re_split (s : string) : list string :=
  match s with
  | EmptyString => [EmptyString]
  | String a r =>
      if is_sep a then EmptyString :: re_split r
      else match re_split r with
           | seg :: segs => String a seg :: segs
           | [] => [String a EmptyString]
           end
  end.

(** [l[-k]] for [k >= 1]: the [k]-th element from the end, [IndexError]
    when the list is shorter. *)
Definition index_from_end {A} (l : list A) (k : nat) : exn + A :=
  if decide (k ≤ length l)%nat then
    match l !! (length l - k)%nat with
    | Some x => inr x
    | None => inl IndexError
    end
  else inl IndexError.

Definition list_item (label : string) : string :=
  "<li>" +:+ label +:+ "</li>" +:+ nl.

(** The body of [for source in sources], on the accumulator
    [formatted_sources]. *)
Definition source_step (formatted_sources : string) (source : option value)
  : exn + string :=
  match source with
  | None => inr formatted_sources
  | Some v =>
      if truthy v then
        match v with
        | VInt _ => inl TypeError
        | VStr src =>
            let split_string := re_split src in
            if decide (1 < length split_string)%nat then
              match index_from_end split_string 3 with
              | inl e => inl e
              | inr label =>
                  if negb (contains label formatted_sources)
                  then inr (formatted_sources +:+ list_item label)
                  else inr formatted_sources
              end
            else inr formatted_sources
        end
      else inr formatted_sources
  end.

Fixpoint sources_loop (formatted_sources : string)
    (srcs : list (option value)) : exn + string :=
  match srcs with
  | [] => inr formatted_sources
  | source :: rest =>
      match source_step formatted_sources source with
      | inl e => inl e
      | inr formatted_sources' => sources_loop formatted_sources' rest
      end
  end.

Definition format_sources (srcs : list (option value)) : exn + string :=
  sources_loop EmptyString srcs.

(** The citation step in the words of the specification: the label of an
    identifier is its path segment, the third segment from the end; an
    identifier with fewer than three segments has no label; the labels are
    deduplicated, the first occurrence of each staying in its place. *)
Definition spec_label (source : string) : option string :=
  let segments := re_split source in
  if decide (3 <= length segments)%nat
  then segments !! (length segments - 3)%nat
  else None.

Fixpoint dedup_first_seen (seen labels : list string) : list string :=
  match labels with
  | [] => []
  | l :: rest =>
      if decide (l ∈ seen) then dedup_first_seen seen rest
      else l :: dedup_first_seen (l :: seen) rest
  end.

Definition spec_source_labels (ids : list string) : list string :=
  dedup_first_seen [] (omap spec_label ids).

Definition render_labels (labels : list string) : string :=
  foldr (fun l acc => list_item l +:+ acc) EmptyString labels.

(** [formatted_response]. *)
Definition formatted_response (response_text formatted_sources : string)
  : string :=
  match formatted_sources with
  | EmptyString => response_text
  | _ =>
      response_text +:+ nl +:+ nl +:+ "<h4>Here my Sources:</h4>" +:+ nl
      +:+ "<ul>" +:+ formatted_sources +:+ "</ul>"
  end.

(** *** Prompt assembly *)

Definition is_lower (a : ascii) : bool :=
  (97 <=? nat_of_ascii a)%nat && (nat_of_ascii a <=? 122)%nat.
Definition is_upper (a : ascii) : bool :=
  (65 <=? nat_of_ascii a)%nat && (nat_of_ascii a <=? 90)%nat.
Definition to_upper (a : ascii) : ascii :=
  if is_lower a then ascii_of_nat (nat_of_ascii a - 32) else a.
Definition to_lower (a : ascii) : ascii :=
  if is_upper a then ascii_of_nat (nat_of_ascii a + 32) else a.

(** [str.title()] on ASCII text: a letter that follows a letter is
    lowered, any other letter is raised. *)
Fixpoint title_from (prev_cased : bool) (s : string) : string :=
  match s with
  | EmptyString => EmptyString
  | String a r =>
      String (if prev_cased then to_lower a else to_upper a)
             (title_from (is_lower a || is_upper a) r)
  end.

Definition title (s : string) : string := title_from false s.

(** [f"{m.role.title()}: {m.content}"]. *)
Definition render_message (m : ChatMessage.t) : string :=
  title (ChatMessage.role m) +:+ ": " +:+ ChatMessage.content m.

(** [PROMPT_TEMPLATE], cut at its three placeholders. *)
Definition template_head : string :=
  join nl
    [ EmptyString;
      "You are a knowledgeable and articulate assistant. ";
      "Based solely on the context provided below, produce a detailed and self-contained answer to the question. ";
      "Structure your answer with clear sections, such as:";
      EmptyString;
      "1. **Overview:** A brief summary or introduction.";
      "2. **Key Details:** Explanation of the relevant facts or technical points.";
      "3. **Insights or Comparisons:** Any additional analysis, recommendations, or comparisons that help clarify the answer.";
      EmptyString;
      "Do not refer to internal labels or figures from the context. Ensure your answer is easy to understand on its own.";
      EmptyString;
      "Conversation So Far:";
      EmptyString ].
Definition template_context : string :=
  join nl [ EmptyString; EmptyString; "Retrieved Context:"; EmptyString ].
Definition template_question : string :=
  join nl [ EmptyString; EmptyString; "Question:"; EmptyString ].
Definition template_tail : string :=
  join nl [ EmptyString; EmptyString; "Answer:"; EmptyString ].

(** [prompt_template.format(chat_history=..., context=..., question=...)]:
    the template is a chat template of one human message, and its text
    form is the role label followed by the template text with its
    placeholders filled in. *)
Definition format_prompt (chat_history context question : string) : string :=
  "Human: " +:+ template_head +:+ chat_history +:+ template_context
  +:+ context +:+ template_question +:+ question +:+ template_tail.

(** *** The world the handler runs in *)

(** Events published to a room. *)
Inductive event : Type :=
| StartStream (message_id : nat)
| StreamToken (token : string) (message_id : nat)
| FinalResponse (final_message : string) (message_id : nat).

#[global] Instance event_eq_dec : EqDecision event.
Proof. solve_decision. Defined.

(** The table of persisted messages in insertion order, the events
    emitted so far (oldest first, each with its room) and the prompts the
    language model was called with. *)
Record world : Type := mkWorld {
  messages : list ChatMessage.t;
  emitted : list (string * event);
  model_calls : list string
}.

(** A handler step: it always leaves a world behind, and either raises or
    returns. *)
Definition M (A : Type) : Type := world -> world * (exn + A).

#[global] Instance M_ret : MRet M := fun A x w => (w, inr x).
#[global] Instance M_bind : MBind M := fun A B f m w =>
  match m w with
  | (w', inl e) => (w', inl e)
  | (w', inr x) => f x w'
  end.

Definition raise {A} (e : exn) : M A := fun w => (w, inl e).

Definition lift {A} (r : exn + A) : M A := fun w => (w, r).

(** The primary key of the next row: one more than the largest in use. *)
Definition fresh_id (rows : list ChatMessage.t) : nat :=
  S (foldr Nat.max 0%nat (map ChatMessage.id rows)).

(** [db.session.add(ChatMessage(...)); db.session.commit()] at clock
    reading [now]; returns the id the row received. *)
Definition add_message (chat role content : string) (now : Z) : M nat :=
  fun w =>
    let i := fresh_id (messages w) in
    (mkWorld (messages w ++ [ChatMessage.mk i chat role content now])
             (emitted w) (model_calls w),
     inr i).

(** [msg.content = c; db.session.commit()]. *)
Definition set_content (i : nat) (c : string) : M unit :=
  fun w =>
    (mkWorld
       (map (fun m => if decide (ChatMessage.id m = i)
                      then ChatMessage.with_content m c else m)
            (messages w))
       (emitted w) (model_calls w),
     inr tt).

(** [emit(name, payload, room=room)]. *)
Definition emit (room : string) (e : event) : M unit :=
  fun w =>
    (mkWorld (messages w) (emitted w ++ [(room, e)]) (model_calls w),
     inr tt).

(** [ORDER BY timestamp]: insertion sort that keeps rows of equal
    timestamp in table order. *)
Fixpoint insert_by_timestamp (m : ChatMessage.t) (l : list ChatMessage.t)
  : list ChatMessage.t :=
  match l with
  | [] => [m]
  | x :: r =>
      if decide (ChatMessage.timestamp m ≤ ChatMessage.timestamp x)
      then m :: x :: r
      else x :: insert_by_timestamp m r
  end.

Definition order_by_timestamp (l : list ChatMessage.t)
  : list ChatMessage.t :=
  foldr insert_by_timestamp [] l.

(** [ChatMessage.query.filter_by(chat_id=chat).order_by(timestamp)
    .all()[-10:]]. *)
Definition recent_history (chat : string) : M (list ChatMessage.t) :=
  fun w =>
    (w, inr (last_n 10
               (order_by_timestamp
                  (filter (fun m => ChatMessage.chat_id m = chat)
                          (messages w))))).

(** The outcome of iterating [model.stream(prompt)]: the tokens it
    yields, and whether the iteration then ends or raises. *)
Inductive stream_end : Type := EndOfStream | StreamFails.

Definition token_stream : Type := list string * stream_end.

(** [model.stream(prompt)]: records the call; the answer is the
    language model's. *)
Definition model_stream (llm : string -> token_stream) (prompt : string)
  : M token_stream :=
  fun w =>
    (mkWorld (messages w) (emitted w) (model_calls w ++ [prompt]),
     inr (llm prompt)).

(** The body of [for chunk in model.stream(prompt)], over the tokens the
    stream yields. *)
Fixpoint stream_loop (room : string) (message_id : nat)
    (response_text : string) (tokens : list string) : M string :=
  match tokens with
  | [] => mret response_text
  | token :: rest =>
      emit room (StreamToken token message_id);;
      stream_loop room message_id (response_text +:+ token) rest
  end.

Definition consume_stream (room : string) (message_id : nat)
    (s : token_stream) : M string :=
  response_text ← stream_loop room message_id EmptyString (fst s);
  match snd s with
  | EndOfStream => mret response_text
  | StreamFails => raise ModelError
  end.

Section Handler.

(** [markdown2.markdown(text, extras=[...])]. *)
Variable markdown : string -> string.

(** [handle_submit_query].  [clock] gives the clock readings at the two
    inserts, [results] is what the similarity search returns for the
    query and [llm] is the language model. *)
Definition handle_submit_query (query chat : string) (clock : Z * Z)
    (results : list (Document * score)) (llm : string -> token_stream)
  : M unit :=
  _ ← add_message chat "user" query (fst clock);
  assistant_id ← add_message chat "assistant" "Generating..." (snd clock);
  emit chat (StartStream assistant_id);;
  history ← recent_history chat;
  let history_text := join nl (map render_message history) in
  let prompt := format_prompt history_text (docs_text results) query in
  stream ← model_stream llm prompt;
  response_text ← consume_stream chat assistant_id stream;
  formatted_sources ← lift (format_sources (sources results));
  let response_html :=
    markdown (formatted_response response_text formatted_sources) in
  set_content assistant_id response_html;;
  emit chat (FinalResponse response_html assistant_id).

End Handler.

Definition empty_world : world := mkWorld [] [] [].

(** *** Names for the parts of one run of the handler *)

(** The two rows a run inserts. *)
Definition user_row (w : world) (query chat : string) (now : Z)
  : ChatMessage.t :=
  ChatMessage.mk (fresh_id (messages w)) chat "user" query now.

Definition placeholder_id (w : world) (query chat : string) (now : Z)
  : nat :=
  fresh_id (messages w ++ [user_row w query chat now]).

Definition placeholder_row (w : world) (query chat : string) (clock : Z * Z)
  : ChatMessage.t :=
  ChatMessage.mk (placeholder_id w query chat (fst clock)) chat
    "assistant" "Generating..." (snd clock).

(** The history block and the prompt of a run. *)
Definition history_of (w : world) (query chat : string) (clock : Z * Z)
  : list ChatMessage.t :=
  last_n 10
    (order_by_timestamp
       (filter (fun m => ChatMessage.chat_id m = chat)
          (messages w ++ [user_row w query chat (fst clock);
                          placeholder_row w query chat clock]))).

Definition prompt_of (w : world) (query chat : string) (clock : Z * Z)
    (results : list (Document * score)) : string :=
  format_prompt (join nl (map render_message (history_of w query chat clock)))
    (docs_text results) query.

(** One token event per token, in order. *)
Definition token_events (room : string) (message_id : nat)
    (tokens : list string) : list (string * event) :=
  map (fun token => (room, StreamToken token message_id)) tokens.

(** The accumulated [response_text]. *)
Definition accumulate (tokens : list string) : string :=
  foldl String.append EmptyString tokens.

Definition is_final (e : string * event) : bool :=
  match snd e with
  | FinalResponse _ _ => true
  | _ => false
  end.

End App.

(** ** populate_database.py, the rest of the ingestor *)

Module Ingestor.
Import Py PopulateDatabase.

(** [id_str.split(':', 1)[0]]: the text before the first colon, the whole
    string when it has none. *)
Fixpoint before_first_colon (s : string) : string :=
  match s with
  | EmptyString => EmptyString
  | String a r =>
      if Ascii.eqb a ":" then EmptyString
      else String a (before_first_colon r)
  end.

(** [get_indexed_pdf_paths]. *)
Definition get_indexed_pdf_paths (db : gmap string Document) : gset string :=
  set_map before_first_colon (dom db).

(** [self.db.reset_collection()]: the collection is emptied, unless the
    store raises; which of the two happens is the store's answer. *)
Definition reset_collection (store_fails : bool) (db : gmap string Document)
  : option (gmap string Document) :=
  if store_fails then None else Some ∅.

(** [reset_db]: the exception of a failed reset is caught and printed.  The
    second component is what the caller sees, [Some tt] for a normal
    return and [None] for an exception. *)
Definition reset_db (store_fails : bool) (db : gmap string Document)
  : gmap string Document * option unit :=
  match reset_collection store_fails db with
  | Some db' => (db', Some tt)
  | None => (db, Some tt)
  end.

(** [load_documents]: the documents of every path, in order; [None] when
    the loader raises on one of them. *)
Definition load_documents (loader : string -> option (list Document))
    (data_paths : list string) : option (list Document) :=
  docs ← mapM loader data_paths;
  Some (concat docs).

(** [split_documents]. *)
Definition split_documents (splitter : list Document -> list Document)
    (documents : list Document) : list Document :=
  splitter documents.

(** [run]: the collection it leaves, and the result of [add_to_chroma] or
    [None] when an exception came out. *)
Definition run (loader : string -> option (list Document))
    (splitter : list Document -> list Document) (data_paths : list string)
    (reset store_fails : bool) (db : gmap string Document)
  : gmap string Document * option sync_result :=
  let db1 := if reset then fst (reset_db store_fails db) else db in
  match load_documents loader data_paths with
  | None => (db1, None)
  | Some docs =>
      let chunks := split_documents splitter docs in
      match add_to_chroma db1 chunks with
      | Some r => (db_after r, Some r)
      | None => (db1, None)
      end
  end.

(** The identifiers of a batch, as a set. *)
Definition batch_ids (chunks : list Document) : gset string :=
  list_to_set (omap doc_id (calculate_chunk_ids chunks)).

End Ingestor.

(** ** app.py, the routes and the ingestion event *)

Module Routes.
Import Py PopulateDatabase Ingestor App.

(** *** [get_available_models] *)

(** What [requests.get] gives: an exception, or a status code with a body.
    The body is [None] when it is not JSON or has no [models] key, and an
    entry of the list is [None] when that model has no [name]. *)
Inductive http_answer : Type :=
| RequestFails
| Answer (status_code : nat) (body : option (list (option string))).

Definition fallback_models : list string := ["llama3.2"].

Definition is_chat_model (name : string) : bool :=
  negb (contains "all-minilm" name) && negb (contains "embed" name).

Definition get_available_models (r : http_answer) : list string :=
  match r with
  | RequestFails => fallback_models
  | Answer status_code body =>
      if decide (status_code = 200%nat) then
        match body ≫= mapM (fun name => name) with
        | Some names => filter (fun n => is_chat_model n = true) names
        | None => fallback_models
        end
      else fallback_models
  end.

(** *** [handle_update_chroma_event] *)

Inductive ingest_event : Type :=
| LoadingProgress (current total : nat)
| UpdateProgress
| UpdateComplete (added : nat).

#[global] Instance ingest_event_eq_dec : EqDecision ingest_event.
Proof. solve_decision. Defined.

(** [[p for p in ingestor.data_paths if p not in seen_path]]. *)
Definition new_paths (db : gmap string Document) (data_paths : list string)
  : list string :=
  filter (fun p => p ∉ get_indexed_pdf_paths db) data_paths.

(** The loop over [enumerate(new_paths)]: the events it emits to the room
    [sid], and the documents gathered, [None] when the loader raised. *)
Fixpoint load_loop (loader : string -> option (list Document))
    (sid : string) (total idx : nat) (paths : list string)
  : list (string * ingest_event) * option (list Document) :=
  match paths with
  | [] => ([], Some [])
  | path :: rest =>
      let progress := (sid, LoadingProgress (S idx) total) in
      match loader path with
      | None => ([progress], None)
      | Some doc =>
          let r := load_loop loader sid total (S idx) rest in
          (progress :: fst r, app doc <$> snd r)
      end
  end.

(** What one ingestion event leaves: the collection, the events published
    and whether the handler returned (rather than raised). *)
Record update_result : Type := mkUpdate {
  store_after : gmap string Document;
  published : list (string * ingest_event);
  returned : bool
}.

Definition handle_update_chroma_event
    (loader : string -> option (list Document))
    (splitter : list Document -> list Document)
    (data_paths : list string) (sid : string) (db : gmap string Document)
  : update_result :=
  let paths := new_paths db data_paths in
  let total_files := length paths in
  if decide (total_files = 0%nat) then
    mkUpdate db [(sid, UpdateComplete 0)] true
  else
    let loaded := load_loop loader sid total_files 0 paths in
    match snd loaded with
    | None => mkUpdate db (fst loaded) false
    | Some docs =>
        let chunks := split_documents splitter docs in
        match add_to_chroma db chunks with
        | None => mkUpdate db (fst loaded ++ [(sid, UpdateProgress)]) false
        | Some r =>
            mkUpdate (db_after r)
              (fst loaded ++ [(sid, UpdateProgress);
                              (sid, UpdateComplete (length paths))])
              true
        end
    end.

(** The progress events for [total] files, in order. *)
Definition progress_events (sid : string) (total : nat)
  : list (string * ingest_event) :=
  map (fun i => (sid, LoadingProgress (S i) total)) (seq 0 total).

(** *** The page routes *)

(** The message table and the session cookie. *)
Record site : Type := mkSite {
  table : list ChatMessage.t;
  session : gmap string string
}.

(** [session.get("current_chat", "chat_1")]. *)
Definition current_chat (s : gmap string string) : string :=
  default "chat_1" (s !! "current_chat").

(** [db.session.query(ChatMessage.chat_id).distinct().all()]: each chat
    once; SQLite answers from the index on [chat_id], in its order. *)
Definition distinct_chats (rows : list ChatMessage.t) : list string :=
  merge_sort String.le (remove_dups (map ChatMessage.chat_id rows)).

(** What [index] hands to the template. *)
Record page : Type := mkPage {
  conversation : list ChatMessage.t;
  page_chat : string;
  chats : list string;
  available_models : list string;
  selected_model : string
}.

Definition index (models : http_answer) (st : site) : site * page :=
  let available := get_available_models models in
  let selected := default "llama3.2" (session st !! "selected_model") in
  let chat := current_chat (session st) in
  (mkSite (table st) (<["current_chat" := chat]> (session st)),
   mkPage
     (order_by_timestamp
        (filter (fun m => ChatMessage.chat_id m = chat) (table st)))
     chat (distinct_chats (table st)) available selected).

(** [f"chat_{k}"]. *)
Definition chat_name (k : nat) : string := "chat_" +:+ pretty k.

Definition new_chat (st : site) : site :=
  mkSite (table st)
    (<["current_chat" := chat_name (length (distinct_chats (table st)) + 1)]>
       (session st)).



Definition clear_conversation (st : site) : site :=
  mkSite
    (filter (fun m => ChatMessage.chat_id m <> current_chat (session st))
            (table st))
    (session st).

Definition select_model (model : string) (st : site) : site :=
  mkSite (table st) (<["selected_model" := model]> (session st)).

(** [reset_chroma]: the collection it leaves and the status it answers. *)
Definition reset_chroma (store_fails : bool) (db : gmap string Document)
  : gmap string Document * string :=
  match reset_db store_fails db with
  | (db', Some _) => (db', "success")
  | (db', None) => (db', "error")
  end.

(** Characters that are not separators of [re_split], and characters other
    than the backslash. *)
Definition not_sep (a : ascii) : bool := negb (is_sep a).
Definition not_backslash (a : ascii) : bool := negb (Ascii.eqb a "092").

(** The order [ORDER BY timestamp] asks for. *)
Definition by_timestamp (a b : ChatMessage.t) : Prop :=
  ChatMessage.timestamp a ≤ ChatMessage.timestamp b.



(** The world a query of chat [chat] meets on the site's table. *)
Definition world_of (st : site) : world := mkWorld (table st) [] [].

End Routes.

(** * Lemmas and theorems *)

Import Py PopulateDatabase.

(** ** Strings *)

Section Strings.

Lemma app_nil_l_s (s : string) : EmptyString +:+ s = s.
Proof. reflexivity. Qed.

Lemma app_cons_s (a : ascii) (s t : string) :
  String a s +:+ t = String a (s +:+ t).
Proof. reflexivity. Qed.

Lemma app_assoc_s (s t u : string) : (s +:+ t) +:+ u = s +:+ t +:+ u.
Proof.
  induction s as [|a s IH]; [done|]. by rewrite !app_cons_s, IH.
Qed.

Lemma all_chars_app p (s t : string) :
  all_chars p (s +:+ t) = all_chars p s && all_chars p t.
Proof.
  induction s as [|a s IH]; [done|].
  rewrite app_cons_s. simpl. rewrite IH. by rewrite andb_assoc.
Qed.

Lemma all_chars_weaken (p q : ascii -> bool) (s : string) :
  (forall a, p a = true -> q a = true) ->
  all_chars p s = true -> all_chars q s = true.
Proof.
  intros Hpq. induction s as [|a s IH]; [done|]. simpl.
  intros [Ha Hs]%andb_prop. rewrite (Hpq _ Ha). simpl. auto.
Qed.

Lemma numeric_not_colon (a : ascii) :
  numeric_char a = true -> not_colon a = true.
Proof.
  unfold not_colon. destruct (Ascii.eqb a ":") eqn:E; [|done].
  apply Ascii.eqb_eq in E. by subst a.
Qed.

(** The text after the last colon determines the split. *)
Lemma app_colon_inj (s1 s2 k1 k2 : string) :
  all_chars not_colon k1 = true ->
  all_chars not_colon k2 = true ->
  s1 +:+ colon +:+ k1 = s2 +:+ colon +:+ k2 ->
  s1 = s2 /\ k1 = k2.
Proof.
  intros H1 H2. revert s2.
  induction s1 as [|a s1 IH]; intros [|b s2];
    rewrite ?app_nil_l_s, ?app_cons_s; unfold colon;
    rewrite ?app_cons_s, ?app_nil_l_s; intros [= E].
  - done.
  - subst k1. rewrite all_chars_app in H1.
    by apply andb_prop in H1 as [_ H1].
  - subst k2. rewrite all_chars_app in H2.
    by apply andb_prop in H2 as [_ H2].
  - intros. subst b. destruct (IH s2) as [-> ->]; done.
Qed.

Lemma pretty_N_char_numeric (x : N) : numeric_char (pretty_N_char x) = true.
Proof. unfold pretty_N_char. by repeat case_match. Qed.

Lemma pretty_N_go_numeric (x : N) (s : string) :
  all_chars numeric_char s = true ->
  all_chars numeric_char (pretty_N_go x s) = true.
Proof.
  revert s. induction (N.lt_wf_0 x) as [x _ IH]; intros s Hs.
  destruct (decide (x = 0%N)) as [->|Hx]; [by rewrite pretty_N_go_0|].
  rewrite pretty_N_go_step by lia.
  apply IH; [apply N.div_lt; lia|].
  simpl. by rewrite pretty_N_char_numeric.
Qed.

Lemma pretty_N_numeric (x : N) : all_chars numeric_char (pretty x) = true.
Proof.
  unfold pretty, pretty_N. case_decide; [done|].
  by apply pretty_N_go_numeric.
Qed.

Lemma pretty_nat_numeric (n : nat) : all_chars numeric_char (pretty n) = true.
Proof. apply pretty_N_numeric. Qed.

Lemma pretty_Z_numeric (z : Z) : all_chars numeric_char (pretty z) = true.
Proof.
  destruct z as [|p|p]; [done|apply pretty_N_numeric|].
  unfold pretty, pretty_Z. rewrite app_cons_s. simpl.
  apply pretty_N_numeric.
Qed.

End Strings.

(** ** Chunk identifiers *)

Section ChunkIds.

Implicit Types (chunk c : Document) (chunks : list Document) (st : id_state).

Lemma fmt_chunk_source_typed c :
  chunk_typed c = true ->
  exists s, chunk_source c = VStr s.
Proof.
  unfold chunk_typed, chunk_source, str_or_absent.
  destruct (metadata c !! "source") as [[z|s]|]; simpl; eauto; done.
Qed.

Lemma chunk_identifier_typed c :
  chunk_typed c = true ->
  (exists z, chunk_identifier c = VInt z) \/ chunk_identifier c = VStr "unknown".
Proof.
  unfold chunk_typed, chunk_identifier, int_or_absent.
  destruct (metadata c !! "source") as [[?|?]|];
    destruct (metadata c !! "page") as [[?|?]|];
    destruct (metadata c !! "start_index") as [[?|?]|]; simpl; eauto; done.
Qed.

Lemma fmt_identifier_no_colon c :
  chunk_typed c = true ->
  all_chars not_colon (fmt (chunk_identifier c)) = true.
Proof.
  intros [[z ->]| ->]%chunk_identifier_typed; [|done].
  eapply all_chars_weaken; [apply numeric_not_colon|apply pretty_Z_numeric].
Qed.

(** On typed chunks the formatted identifier stands for the pair. *)
Lemma current_identifier_inj c1 c2 :
  chunk_typed c1 = true -> chunk_typed c2 = true ->
  current_identifier c1 = current_identifier c2 ->
  position_pair c1 = position_pair c2.
Proof.
  intros T1 T2 E. unfold current_identifier in E.
  apply app_colon_inj in E as [Es Ek]; try by apply fmt_identifier_no_colon.
  unfold position_pair.
  destruct (fmt_chunk_source_typed _ T1) as [s1 H1].
  destruct (fmt_chunk_source_typed _ T2) as [s2 H2].
  rewrite H1, H2 in *. simpl in Es. subst s2. f_equal.
  destruct (chunk_identifier_typed _ T1) as [[z1 K1]|K1],
           (chunk_identifier_typed _ T2) as [[z2 K2]|K2];
    rewrite K1, K2 in *; simpl in Ek.
  - by apply (inj pretty) in Ek as ->.
  - pose proof (pretty_Z_numeric z1) as N. by rewrite Ek in N.
  - pose proof (pretty_Z_numeric z2) as N. by rewrite <- Ek in N.
  - done.
Qed.

Lemma current_identifier_pair c1 c2 :
  position_pair c1 = position_pair c2 ->
  current_identifier c1 = current_identifier c2.
Proof. unfold position_pair, current_identifier. by intros [= -> ->]. Qed.

Lemma length_id_loop st chunks : length (id_loop st chunks) = length chunks.
Proof.
  revert st. induction chunks as [|c chunks IH]; intros st; simpl; [done|].
  by rewrite IH.
Qed.

(** Each iteration starts from the loop variables the one before it
    left, and those remember the identifier of the chunk before. *)
Lemma id_loop_lookup_S chunks st i prev cur r :
  chunks !! i = Some prev ->
  chunks !! S i = Some cur ->
  id_loop st chunks !! i = Some r ->
  id_loop st chunks !! S i = Some (assign_chunk_id (fst r) cur)
  /\ last_identifier (fst r) = Some (current_identifier prev).
Proof.
  revert st i. induction chunks as [|c chunks IH]; intros st i; [done|].
  destruct i as [|i]; simpl.
  - intros [= ->] Hcur [= <-]. destruct chunks as [|c' chunks]; [done|].
    simpl in Hcur. injection Hcur as ->. done.
  - intros Hp Hc Hr. by apply IH.
Qed.

Lemma id_loop_lookup_0 chunks st c :
  chunks !! 0%nat = Some c ->
  id_loop st chunks !! 0%nat = Some (assign_chunk_id st c).
Proof. destruct chunks; simpl; [done|]. by intros [= ->]. Qed.

Lemma id_loop_lookup chunks st i c :
  chunks !! i = Some c ->
  exists st', id_loop st chunks !! i = Some (assign_chunk_id st' c).
Proof.
  revert st i. induction chunks as [|c' chunks IH]; intros st i; [done|].
  destruct i as [|i]; simpl.
  - intros [= ->]. eauto.
  - apply IH.
Qed.

Lemma doc_id_assign st c :
  doc_id (snd (assign_chunk_id st c))
  = Some (current_identifier c +:+ colon
            +:+ pretty (current_idx (fst (assign_chunk_id st c)))).
Proof.
  unfold doc_id, assign_chunk_id, set_metadata. simpl.
  by rewrite lookup_insert_eq.
Qed.

End ChunkIds.

Section OrdinalRule.

Implicit Types (c : Document) (chunks : list Document) (st : id_state).

Lemma assign_chunk_id_rule st previous c :
  chunk_typed c = true ->
  remembers st previous ->
  current_idx (fst (assign_chunk_id st c))
  = (if decide (previous = Some (position_pair c))
     then S (current_idx st) else 0%nat)
  /\ remembers (fst (assign_chunk_id st c)) (Some (position_pair c)).
Proof.
  intros Tc R. split; [|by exists c].
  unfold assign_chunk_id. simpl.
  destruct previous as [q|]; simpl in R.
  - destruct R as (p & Tp & <- & ->).
    destruct (decide (Some (current_identifier c) = Some (current_identifier p)))
      as [E|N]; destruct (decide (Some (position_pair p) = Some (position_pair c)))
      as [E'|N']; try done.
    + injection E as E. apply current_identifier_inj in E; congruence.
    + assert (position_pair p = position_pair c) as E'' by congruence.
      apply current_identifier_pair in E''. congruence.
  - rewrite R. repeat case_decide; done.
Qed.

Lemma id_loop_ordinal_rule chunks st previous :
  Forall (fun c => chunk_typed c = true) chunks ->
  remembers st previous ->
  map (fun r => current_idx (fst r)) (id_loop st chunks)
  = ordinal_rule previous (current_idx st) (map position_pair chunks).
Proof.
  intros T. revert st previous.
  induction T as [|c chunks Tc _ IH]; intros st previous R; [done|].
  destruct (assign_chunk_id_rule st previous c Tc R) as [E R'].
  change (id_loop st (c :: chunks))
    with (assign_chunk_id st c :: id_loop (fst (assign_chunk_id st c)) chunks).
  cbn [map ordinal_rule]. rewrite (IH _ _ R'), E. done.
Qed.

Lemma position_pair_page_chunk (text source : string) (page : Z) :
  position_pair (page_chunk text source page) = (VStr source, VInt page).
Proof.
  unfold position_pair, chunk_source, chunk_identifier, page_chunk. simpl.
  rewrite lookup_insert_eq, lookup_insert_ne by done.
  by rewrite lookup_insert_eq.
Qed.

Lemma chunk_typed_page_chunk (text source : string) (page : Z) :
  chunk_typed (page_chunk text source page) = true.
Proof.
  unfold chunk_typed, page_chunk. simpl.
  rewrite lookup_insert_eq, !lookup_insert_ne by done.
  by rewrite lookup_insert_eq, lookup_insert_ne.
Qed.

End OrdinalRule.

Lemma id_loop_chunk_ids (st : id_state) (chunks : list Document) :
  map (fun r => doc_id (snd r)) (id_loop st chunks)
  = zip_with
      (fun c n => Some (fmt (chunk_source c) +:+ colon
                        +:+ fmt (chunk_identifier c) +:+ colon +:+ pretty n))
      chunks (map (fun r => current_idx (fst r)) (id_loop st chunks)).
Proof.
  revert st. induction chunks as [|c chunks IH]; intros st; [done|].
  cbn [id_loop map zip_with]. rewrite IH, doc_id_assign.
  unfold current_identifier. by rewrite !app_assoc_s.
Qed.

(** The identifiers written carry the ordinals of the loop. *)
Lemma chunk_ids_ordinals (chunks : list Document) :
  chunk_ids chunks
  = zip_with
      (fun c n => Some (fmt (chunk_source c) +:+ colon
                        +:+ fmt (chunk_identifier c) +:+ colon +:+ pretty n))
      chunks (assigned_ordinals chunks).
Proof.
  unfold chunk_ids, calculate_chunk_ids, assigned_ordinals.
  rewrite <- id_loop_chunk_ids. by rewrite map_map.
Qed.

(** C3.  Ordinal assignment rule.  For every ordered list of chunks whose
    source is a string and whose page and start index are integers, the
    identifier [calculate_chunk_ids] writes on each chunk ends with the
    ordinal of the rule: one more than the ordinal of the chunk just
    before when the chunk's (sourcePath, positionKey) pair equals that
    chunk's pair, and 0 otherwise, the first chunk getting 0.  In
    particular four chunks of one source on pages [a, a, b, a] with [a], [b]
    distinct are written the identifiers with ordinals [0, 1, 0, 0]. *)
Theorem ordinal_assignment_rule
    (chunks : list Document) (source t1 t2 t3 t4 : string) (a b : Z) :
  Forall (fun c => chunk_typed c = true) chunks ->
  a <> b ->
  chunk_ids chunks
  = zip_with
      (fun c n => Some (fmt (chunk_source c) +:+ colon
                        +:+ fmt (chunk_identifier c) +:+ colon +:+ pretty n))
      chunks (spec_ordinals (map position_pair chunks))
  /\ assigned_ordinals chunks = spec_ordinals (map position_pair chunks)
  /\ chunk_ids
       [page_chunk t1 source a; page_chunk t2 source a;
        page_chunk t3 source b; page_chunk t4 source a]
     = [Some (source +:+ colon +:+ pretty a +:+ colon +:+ "0");
        Some (source +:+ colon +:+ pretty a +:+ colon +:+ "1");
        Some (source +:+ colon +:+ pretty b +:+ colon +:+ "0");
        Some (source +:+ colon +:+ pretty a +:+ colon +:+ "0")]
  /\ assigned_ordinals
       [page_chunk t1 source a; page_chunk t2 source a;
        page_chunk t3 source b; page_chunk t4 source a]
     = [0; 1; 0; 0]%nat.
Proof.
  intros T Hab.
  assert (G : forall l, Forall (fun c => chunk_typed c = true) l ->
            assigned_ordinals l = spec_ordinals (map position_pair l)).
  { intros l Tl. by apply id_loop_ordinal_rule. }
  assert (E : assigned_ordinals
                [page_chunk t1 source a; page_chunk t2 source a;
                 page_chunk t3 source b; page_chunk t4 source a]
              = [0; 1; 0; 0]%nat).
  { rewrite G by (repeat constructor; apply chunk_typed_page_chunk).
    cbn [map]. rewrite !position_pair_page_chunk.
    unfold spec_ordinals. simpl.
    repeat case_decide; simplify_eq; done. }
  split; [by rewrite chunk_ids_ordinals, G|]. split; [by apply G|].
  split; [|exact E].
  rewrite chunk_ids_ordinals, E. cbn [zip_with].
  assert (S : forall t p, chunk_source (page_chunk t source p) = VStr source)
    by (intros t p; exact (f_equal fst (position_pair_page_chunk t source p))).
  assert (I : forall t p, chunk_identifier (page_chunk t source p) = VInt p)
    by (intros t p; exact (f_equal snd (position_pair_page_chunk t source p))).
  rewrite !S, !I. reflexivity.
Qed.

Lemma ordinal_assignment_rule_witness :
  Forall (fun c => chunk_typed c = true)
    [page_chunk "p1" "data/report.pdf" 3; page_chunk "p2" "data/report.pdf" 3;
     page_chunk "p3" "data/other.pdf" 0]
  /\ (1 : Z) <> 2
  /\ chunk_ids
       [page_chunk "p1" "data/report.pdf" 3; page_chunk "p2" "data/report.pdf" 3;
        page_chunk "p3" "data/other.pdf" 0]
     = [Some "data/report.pdf:3:0"; Some "data/report.pdf:3:1";
        Some "data/other.pdf:0:0"]
  /\ chunk_ids
       [page_chunk "w" "f.pdf" 1; page_chunk "x" "f.pdf" 1;
        page_chunk "y" "f.pdf" 2; page_chunk "z" "f.pdf" 1]
     = [Some "f.pdf:1:0"; Some "f.pdf:1:1"; Some "f.pdf:2:0";
        Some "f.pdf:1:0"].
Proof.
  assert (H1 : Forall (fun c => chunk_typed c = true)
                 [page_chunk "p1" "data/report.pdf" 3;
                  page_chunk "p2" "data/report.pdf" 3;
                  page_chunk "p3" "data/other.pdf" 0])
    by (repeat constructor).
  assert (H2 : (1 : Z) <> 2) by lia.
  split; [exact H1|]. split; [exact H2|].
  destruct (ordinal_assignment_rule _ "f.pdf" "w" "x" "y" "z" 1 2 H1 H2)
    as (E1 & _ & E2 & _).
  split; [exact E1|exact E2].
Defined.

(** C4.  Identifier format.  The identifier [calculate_chunk_ids] writes on
    the chunk at position [i] is the chunk's source, its position key and
    its ordinal, each printed as it is and joined by single colons; the
    position key is the page when the chunk has one and the start index
    otherwise.  Strings are copied unchanged ([fmt] of a string is the
    string), so nothing is escaped. *)
Theorem chunk_id_format
    (chunks : list Document) (i : nat) (c : Document) (key : value) (n : nat) :
  chunks !! i = Some c ->
  assigned_ordinals chunks !! i = Some n ->
  metadata c !! "page" = Some key
  \/ (metadata c !! "page" = None /\ metadata c !! "start_index" = Some key) ->
  chunk_ids chunks !! i
  = Some (Some (fmt (chunk_source c) +:+ colon +:+ fmt key +:+ colon
                +:+ pretty n)).
Proof.
  intros Hc Hn Hkey.
  unfold chunk_ids, calculate_chunk_ids, assigned_ordinals in *.
  destruct (id_loop_lookup chunks id_init i c Hc) as [st' Hr].
  rewrite list_lookup_fmap, Hr in Hn. simpl in Hn. injection Hn as <-.
  rewrite !list_lookup_fmap, Hr. simpl. f_equal.
  replace key with (chunk_identifier c)
    by (unfold chunk_identifier; by destruct Hkey as [->|[-> ->]]).
  unfold doc_id, set_metadata. simpl. rewrite lookup_insert_eq.
  unfold current_identifier. by rewrite !app_assoc_s.
Qed.

Lemma chunk_id_format_witness :
  [page_chunk "p1" "C:\docs\a.pdf" 3; page_chunk "p2" "C:\docs\a.pdf" 3] !! 1%nat
  = Some (page_chunk "p2" "C:\docs\a.pdf" 3)
  /\ assigned_ordinals
       [page_chunk "p1" "C:\docs\a.pdf" 3; page_chunk "p2" "C:\docs\a.pdf" 3]
       !! 1%nat = Some 1%nat
  /\ metadata (page_chunk "p2" "C:\docs\a.pdf" 3) !! "page" = Some (VInt 3)
  /\ chunk_ids
       [page_chunk "p1" "C:\docs\a.pdf" 3; page_chunk "p2" "C:\docs\a.pdf" 3]
       !! 1%nat
     = Some (Some "C:\docs\a.pdf:3:1").
Proof.
  split; [reflexivity|]. split; [reflexivity|]. split; [reflexivity|].
  apply (chunk_id_format
           [page_chunk "p1" "C:\docs\a.pdf" 3; page_chunk "p2" "C:\docs\a.pdf" 3]
           1 (page_chunk "p2" "C:\docs\a.pdf" 3) (VInt 3) 1).
  - reflexivity.
  - reflexivity.
  - left. reflexivity.
Defined.

(** C2.  Batch uniqueness does not hold for every list.  When a (source,
    position) pair comes back after another one the counter starts from 0
    again: four chunks of one source on pages 1, 1, 2, 1 receive the
    identifiers [report.pdf:1:0], [report.pdf:1:1], [report.pdf:2:0] and
    [report.pdf:1:0] again, so the first and the last chunk of the batch
    share an identifier.  The same happens with start indexes 0, -1, 1600,
    -1, the splitter writing -1 for a chunk whose text it does not find
    back in the document. *)
Theorem chunk_ids_collide :
  chunk_ids [page_chunk "w" "report.pdf" 1; page_chunk "x" "report.pdf" 1;
             page_chunk "y" "report.pdf" 2; page_chunk "z" "report.pdf" 1]
  = [Some "report.pdf:1:0"; Some "report.pdf:1:1"; Some "report.pdf:2:0";
     Some "report.pdf:1:0"]
  /\ ~ NoDup (chunk_ids [page_chunk "w" "report.pdf" 1;
                         page_chunk "x" "report.pdf" 1;
                         page_chunk "y" "report.pdf" 2;
                         page_chunk "z" "report.pdf" 1])
  /\ chunk_ids [offset_chunk "w" "data/report.pdf" 0;
                offset_chunk "x" "data/report.pdf" (-1);
                offset_chunk "y" "data/report.pdf" 1600;
                offset_chunk "z" "data/report.pdf" (-1)]
     = [Some "data/report.pdf:0:0"; Some "data/report.pdf:-1:0";
        Some "data/report.pdf:1600:0"; Some "data/report.pdf:-1:0"].
Proof.
  assert (E : chunk_ids [page_chunk "w" "report.pdf" 1;
                         page_chunk "x" "report.pdf" 1;
                         page_chunk "y" "report.pdf" 2;
                         page_chunk "z" "report.pdf" 1]
              = [Some "report.pdf:1:0"; Some "report.pdf:1:1";
                 Some "report.pdf:2:0"; Some "report.pdf:1:0"])
    by (vm_compute; reflexivity).
  split; [exact E|]. split; [|vm_compute; reflexivity].
  rewrite E. intros ND.
  apply NoDup_cons in ND as [Hin _]. apply Hin. set_solver.
Qed.

(** ** Where the identifiers of a batch are distinct *)

Section Uniqueness.

Implicit Types (c : Document) (chunks : list Document) (st : id_state).

(** Along a run of chunks with one identifier the ordinal counts up. *)
Lemma id_loop_run chunks st (d : nat) : forall i ci r c',
  chunks !! i = Some ci ->
  id_loop st chunks !! i = Some r ->
  (forall j cj, (i ≤ j ≤ i + d)%nat -> chunks !! j = Some cj ->
                current_identifier cj = current_identifier ci) ->
  chunks !! (i + d)%nat = Some c' ->
  exists r', id_loop st chunks !! (i + d)%nat = Some r'
             /\ current_idx (fst r') = (current_idx (fst r) + d)%nat.
Proof.
  induction d as [|d IH]; intros i ci r c' Hi Hr Hrun Hc'.
  - rewrite Nat.add_0_r. exists r. split; [done|lia].
  - replace (i + S d)%nat with (S (i + d)) in * by lia.
    destruct (lookup_lt_is_Some_2 chunks (i + d)) as [c'' Hc''].
    { apply lookup_lt_Some in Hc'. lia. }
    destruct (IH i ci r c'' Hi Hr) as (r'' & Hr'' & Hidx); [|done|].
    { intros j cj Hj. apply Hrun. lia. }
    destruct (id_loop_lookup_S chunks st (i + d) c'' c' r'' Hc'' Hc' Hr'')
      as [Hnext Hlast].
    eexists. split; [exact Hnext|].
    unfold assign_chunk_id. cbn [fst current_idx]. rewrite Hlast.
    rewrite (Hrun (S (i + d)) c') by (done || lia).
    rewrite (Hrun (i + d)%nat c'') by (done || lia).
    rewrite decide_True by done. lia.
Qed.

Lemma chunk_ids_lookup chunks i x :
  chunk_ids chunks !! i = Some x ->
  exists c r, chunks !! i = Some c
              /\ id_loop id_init chunks !! i = Some r
              /\ x = Some (current_identifier c +:+ colon
                           +:+ pretty (current_idx (fst r))).
Proof.
  unfold chunk_ids, calculate_chunk_ids. rewrite !list_lookup_fmap.
  destruct (id_loop id_init chunks !! i) as [r|] eqn:Hr; [|done].
  simpl. intros [= <-].
  destruct (lookup_lt_is_Some_2 chunks i) as [c Hc].
  { apply lookup_lt_Some in Hr. by rewrite length_id_loop in Hr. }
  destruct (id_loop_lookup chunks id_init i c Hc) as [st' Hr'].
  rewrite Hr in Hr'. injection Hr' as ->.
  exists c, (assign_chunk_id st' c). by rewrite doc_id_assign.
Qed.

(** When the chunks of one (source, position) pair stand together, as the
    splitter produces them, no identifier of the batch occurs twice. *)
Lemma chunk_ids_distinct_when_grouped chunks :
  Forall (fun c => chunk_typed c = true) chunks ->
  grouped chunks ->
  NoDup (chunk_ids chunks).
Proof.
  intros T G.
  assert (Hlt : forall i j x, (i < j)%nat ->
            chunk_ids chunks !! i = Some x ->
            chunk_ids chunks !! j = Some x -> False).
  { intros i j x Hij (ci & ri & Hci & Hri & ->)%chunk_ids_lookup
      (cj & rj & Hcj & Hrj & [= E])%chunk_ids_lookup.
    apply app_colon_inj in E as [Ecur En];
      try (eapply all_chars_weaken;
           [apply numeric_not_colon|apply pretty_nat_numeric]).
    apply (inj pretty) in En.
    rewrite Forall_forall in T.
    assert (Epair : position_pair ci = position_pair cj).
    { apply current_identifier_inj; [apply T..|done];
        by eapply list_elem_of_lookup_2. }
    destruct (id_loop_run chunks id_init (j - i) i ci ri cj Hci Hri)
      as (r' & Hr' & Hidx).
    - intros m cm Hm Hcm. apply current_identifier_pair.
      apply (G i m j ci cm cj); (done || lia).
    - by replace (i + (j - i))%nat with j by lia.
    - replace (i + (j - i))%nat with j in Hr' by lia.
      rewrite Hrj in Hr'. injection Hr' as <-. lia. }
  apply NoDup_alt. intros i j x Hi Hj.
  destruct (Nat.lt_trichotomy i j) as [H|[H|H]]; [|done|];
    exfalso; eauto.
Qed.

End Uniqueness.

(** ** Incremental indexing *)

Section Indexing.

Implicit Types (c : Document) (chunks : list Document) (st : id_state)
  (db : gmap string Document) (E : gset string).

(** Writing the id changes none of the keys the identifier is built from. *)
Lemma current_identifier_set_id c v :
  current_identifier (set_metadata c "id" v) = current_identifier c.
Proof.
  unfold current_identifier, chunk_source, chunk_identifier, set_metadata.
  simpl. by rewrite !lookup_insert_ne.
Qed.

Lemma assign_chunk_id_again st c :
  assign_chunk_id st (snd (assign_chunk_id st c)) = assign_chunk_id st c.
Proof.
  unfold assign_chunk_id. cbn [snd]. cbv zeta.
  rewrite !current_identifier_set_id.
  unfold set_metadata. simpl. by rewrite insert_insert_eq.
Qed.

Lemma id_loop_again st chunks :
  id_loop st (map snd (id_loop st chunks)) = id_loop st chunks.
Proof.
  revert st. induction chunks as [|c chunks IH]; intros st; [done|].
  cbn [id_loop map]. rewrite assign_chunk_id_again. by rewrite IH.
Qed.

(** Assigning identifiers to chunks that already carry them, as the
    second call on the same list does, gives the same chunks. *)
Lemma calculate_chunk_ids_again chunks :
  calculate_chunk_ids (calculate_chunk_ids chunks) = calculate_chunk_ids chunks.
Proof. unfold calculate_chunk_ids. by rewrite id_loop_again. Qed.

Lemma calculate_chunk_ids_has_id chunks c :
  c ∈ calculate_chunk_ids chunks -> is_Some (doc_id c).
Proof.
  unfold calculate_chunk_ids. generalize id_init.
  induction chunks as [|c0 chunks IH]; intros st; cbn [id_loop map].
  - by intros ?%elem_of_nil.
  - intros [->|H]%elem_of_cons; [|by eapply IH].
    rewrite doc_id_assign. eauto.
Qed.

Lemma select_new_total E chunks :
  (forall c, c ∈ chunks -> is_Some (doc_id c)) ->
  exists new,
    select_new E chunks = Some new
    /\ (forall c, c ∈ new -> c ∈ chunks)
    /\ (forall c i, c ∈ chunks -> doc_id c = Some i -> i ∈ E \/ c ∈ new).
Proof.
  induction chunks as [|c0 chunks IH]; intros Hid; simpl.
  - exists []. split; [done|]. split; [done|]. by intros ?? ?%elem_of_nil.
  - destruct (Hid c0) as [i0 Hi0]; [by left|]. rewrite Hi0. simpl.
    destruct IH as (new & -> & Hsub & Hcov).
    { intros c Hc. apply Hid. by right. }
    simpl. eexists. split; [done|]. split.
    + intros c. case_decide; [|intros [->|?]%elem_of_cons];
        rewrite elem_of_cons; auto.
    + intros c i [->|Hc]%elem_of_cons Hi.
      * rewrite Hi0 in Hi. injection Hi as ->.
        case_decide; [by left|right; by left].
      * destruct (Hcov c i Hc Hi) as [?|?]; [by left|right].
        case_decide; [done|by right].
Qed.

Lemma select_new_nothing E chunks :
  (forall c, c ∈ chunks -> exists i, doc_id c = Some i /\ i ∈ E) ->
  select_new E chunks = Some [].
Proof.
  induction chunks as [|c0 chunks IH]; intros H; simpl; [done|].
  destruct (H c0) as (i & -> & Hi); [by left|]. simpl.
  rewrite IH by (intros c Hc; apply H; by right). simpl.
  by rewrite decide_True.
Qed.

Lemma mapM_doc_id_total (l : list Document) :
  (forall c, c ∈ l -> is_Some (doc_id c)) ->
  exists ids, mapM doc_id l = Some ids /\ Forall2 (fun c i => doc_id c = Some i) l ids.
Proof.
  intros H. destruct (mapM doc_id l) as [ids|] eqn:E.
  - exists ids. split; [done|]. by apply mapM_Some_1.
  - exfalso. apply mapM_None in E. apply Exists_exists in E as (c & Hc & N).
    destruct (H c Hc) as [i Hi]. congruence.
Qed.

Lemma dom_upsert_all db (docs : list Document) (ids : list string) i :
  i ∈ dom db \/ (exists c, (i, c) ∈ zip ids docs) ->
  i ∈ dom (upsert_all db docs ids).
Proof.
  unfold upsert_all. revert db.
  induction (zip ids docs) as [|[j d] l IH]; intros db; simpl.
  - intros [?|[c Hc]]; [done|]. by apply elem_of_nil in Hc.
  - intros [H|[c [[= -> ->]|H]%elem_of_cons]]; apply IH.
    + left. rewrite dom_insert_L. set_solver.
    + left. rewrite dom_insert_L. set_solver.
    + right. eauto.
Qed.

Lemma elem_of_zip_Forall2 (docs : list Document) (ids : list string) c i :
  Forall2 (fun c i => doc_id c = Some i) docs ids ->
  c ∈ docs -> doc_id c = Some i -> (i, c) ∈ zip ids docs.
Proof.
  induction 1 as [|c0 i0 docs ids H0 _ IH]; simpl.
  - by intros ?%elem_of_nil.
  - intros [->|Hc]%elem_of_cons Hi.
    + rewrite H0 in Hi. injection Hi as ->. by left.
    + right. by apply IH.
Qed.

(** After a call that returned, every chunk of the list is stored. *)
Lemma add_to_chroma_stored db chunks first :
  add_to_chroma db chunks = Some first ->
  chunks_after first = calculate_chunk_ids chunks
  /\ forall c, c ∈ calculate_chunk_ids chunks ->
       exists i, doc_id c = Some i /\ i ∈ dom (db_after first).
Proof.
  assert (Hid := calculate_chunk_ids_has_id chunks).
  destruct (select_new_total (dom db) (calculate_chunk_ids chunks) Hid)
    as (new & Hnew & Hsub & Hcov).
  unfold add_to_chroma. rewrite Hnew. simpl.
  destruct new as [|c0 new'] eqn:En.
  - intros [= <-]. split; [done|]. simpl.
    intros c Hc. destruct (Hid c Hc) as [i Hi]. exists i. split; [done|].
    destruct (Hcov c i Hc Hi) as [?|H]; [done|]. by apply elem_of_nil in H.
  - rewrite <- En in *. clear En.
    destruct (mapM_doc_id_total new) as (ids & -> & F2).
    { intros c Hc. apply Hid. by apply Hsub. }
    simpl. unfold add_documents. case_decide; [|done]. simpl.
    intros [= <-]. split; [done|]. simpl.
    intros c Hc. destruct (Hid c Hc) as [i Hi]. exists i. split; [done|].
    apply dom_upsert_all.
    destruct (Hcov c i Hc Hi) as [?|Hin]; [by left|right].
    exists c. by eapply elem_of_zip_Forall2.
Qed.

End Indexing.


(** ** The query handler *)

Import App.

Section Run.

Variable markdown : string -> string.

Implicit Types (w : world) (results : list (Document * score))
  (llm : string -> token_stream).

Lemma stream_loop_run room mid tokens : forall acc w,
  stream_loop room mid acc tokens w
  = (mkWorld (messages w) (emitted w ++ token_events room mid tokens)
             (model_calls w),
     inr (foldl String.append acc tokens)).
Proof.
  induction tokens as [|t tokens IH]; intros acc w.
  - simpl. unfold mret, M_ret, token_events. simpl.
    rewrite app_nil_r. by destruct w.
  - cbn [stream_loop]. unfold mbind, M_bind, emit. simpl.
    rewrite IH. simpl. by rewrite <- app_assoc.
Qed.

(** What a run does, step by step: the two rows are inserted, the stream
    is announced, the model is called once with the prompt, every token
    is published, and the answer is finalised unless the stream or the
    citation step raised. *)
Lemma handle_submit_query_run query chat clock results llm w :
  let mid := placeholder_id w query chat (fst clock) in
  let rows := messages w ++ [user_row w query chat (fst clock);
                             placeholder_row w query chat clock] in
  let prompt := prompt_of w query chat clock results in
  let tokens := fst (llm prompt) in
  let streamed :=
    emitted w ++ (chat, StartStream mid) :: token_events chat mid tokens in
  let calls := model_calls w ++ [prompt] in
  handle_submit_query markdown query chat clock results llm w
  = match snd (llm prompt) with
    | StreamFails => (mkWorld rows streamed calls, inl ModelError)
    | EndOfStream =>
        match format_sources (sources results) with
        | inl e => (mkWorld rows streamed calls, inl e)
        | inr formatted_sources =>
            let html :=
              markdown (formatted_response (accumulate tokens)
                          formatted_sources) in
            (mkWorld
               (map (fun m => if decide (ChatMessage.id m = mid)
                              then ChatMessage.with_content m html else m)
                    rows)
               (streamed ++ [(chat, FinalResponse html mid)]) calls,
             inr tt)
        end
    end.
Proof.
  cbv zeta.
  unfold handle_submit_query, consume_stream, prompt_of, history_of,
    placeholder_row, placeholder_id, user_row, accumulate.
  unfold mbind, M_bind, mret, M_ret, add_message, emit, recent_history,
    model_stream, lift, raise, set_content.
  cbn [messages emitted model_calls fst snd].
  rewrite stream_loop_run. cbn [messages emitted model_calls fst snd].
  rewrite <- !app_assoc. cbn [app].
  match goal with |- context [llm ?p] => destruct (llm p) as [toks [|]] end;
    cbn [fst snd]; [|done].
  destruct (format_sources (sources results)); [done|].
  cbn [messages emitted model_calls]. by rewrite <- ?app_assoc.
Qed.

End Run.

(** ** Retrieval and citations *)

Section Retrieval.

Implicit Types (results : list (Document * score)) (s : score).

(** A float that is at least a positive finite float is not below it. *)
Lemma SFleb_not_SFltb (m : positive) (e : Z) s :
  SFleb (S754_finite false m e) s = true ->
  SFltb s (S754_finite false m e) = false.
Proof.
  unfold SFleb, SFltb.
  destruct s as [sg|sg| |sg m' e']; cbn [SFcompare].
  - discriminate.
  - destruct sg; [discriminate|reflexivity].
  - reflexivity.
  - destruct sg; [discriminate|]. intros H.
    rewrite (Z.compare_antisym e e').
    destruct (e ?= e') eqn:E; cbn [CompOpp] in *;
      [|reflexivity|discriminate].
    change (Pos.compare_cont Eq m' m)
      with (Pos.compare_cont (CompOpp Eq) m' m).
    rewrite <- Pos.compare_cont_antisym.
    destruct (Pos.compare_cont Eq m m'); cbn [CompOpp];
      [reflexivity|reflexivity|discriminate].
Qed.

(** A score of at least 1.0 is not below 1.0. *)
Lemma at_least_threshold_fails s :
  SFleb threshold s = true -> passes s = false.
Proof. apply SFleb_not_SFltb. Qed.

Lemma relevant_app results1 results2 :
  relevant (results1 ++ results2) = relevant results1 ++ relevant results2.
Proof. unfold relevant. by rewrite filter_app, map_app. Qed.

Lemma relevant_drop results1 r results2 :
  passes (snd r) = false ->
  relevant (results1 ++ r :: results2) = relevant (results1 ++ results2).
Proof.
  intros F. rewrite !relevant_app. f_equal.
  unfold relevant. rewrite filter_cons_False; [done|]. by rewrite F.
Qed.

Lemma relevant_pass results d :
  d ∈ relevant results ->
  exists s, (d, s) ∈ results /\ SFltb s threshold = true.
Proof.
  unfold relevant. intros ([d' s] & -> & [H1 H2]%list_elem_of_filter)%list_elem_of_fmap.
  exists s. by split.
Qed.

(** A label that stands in the list is found in it, whatever is added
    before or after; so the loop never lists a label twice. *)
Lemma prefix_app_l (s h t : string) :
  String.prefix s h = true -> String.prefix s (h +:+ t) = true.
Proof.
  revert h. induction s as [|a s IH]; intros h.
  - intros _. by destruct (h +:+ t).
  - destruct h as [|b h]; simpl; [done|].
    rewrite ?app_cons_s. simpl. destruct (ascii_dec a b); [apply IH|done].
Qed.

Lemma prefix_self_app (s t : string) : String.prefix s (s +:+ t) = true.
Proof.
  induction s as [|a s IH]; [by destruct t|].
  rewrite app_cons_s. simpl. by destruct (ascii_dec a a).
Qed.

Lemma contains_app_l (needle hay t : string) :
  contains needle hay = true -> contains needle (hay +:+ t) = true.
Proof.
  induction hay as [|b hay IH].
  - cbn [contains]. rewrite orb_false_r. intros H.
    destruct needle; [|done]. by destruct t.
  - change (String b hay +:+ t) with (String b (hay +:+ t)).
    cbn [contains]. intros [H|H]%orb_prop; apply orb_true_iff.
    + left. by apply (prefix_app_l needle (String b hay) t).
    + right. by apply IH.
Qed.

Lemma contains_app_r (needle p hay : string) :
  contains needle hay = true -> contains needle (p +:+ hay) = true.
Proof.
  intros H. induction p as [|a p IH]; [done|].
  rewrite app_cons_s. cbn [contains]. rewrite IH. apply orb_true_r.
Qed.

Lemma contains_self_app (s t : string) : contains s (s +:+ t) = true.
Proof.
  pose proof (prefix_self_app s t) as P.
  destruct (s +:+ t); cbn [contains]; by rewrite P.
Qed.

Lemma contains_listed (formatted_sources label more : string) :
  contains label (formatted_sources +:+ list_item label +:+ more) = true.
Proof.
  apply contains_app_r. unfold list_item.
  apply (contains_app_r label "<li>").
  rewrite !app_assoc_s. apply contains_self_app.
Qed.

(** An identifier whose label is already listed changes nothing. *)
Lemma source_step_listed (formatted_sources src label more : string) :
  index_from_end (re_split src) 3 = inr label ->
  source_step (formatted_sources +:+ list_item label +:+ more)
              (Some (VStr src))
  = inr (formatted_sources +:+ list_item label +:+ more).
Proof.
  intros L. unfold source_step. destruct (truthy (VStr src)); [|done].
  case_decide; [|done]. rewrite L. by rewrite contains_listed.
Qed.

(** What the length test of the citation loop lets through. *)
Lemma source_step_one_segment (formatted_sources src : string) :
  length (re_split src) = 1%nat ->
  source_step formatted_sources (Some (VStr src)) = inr formatted_sources.
Proof.
  intros L. unfold source_step. destruct (truthy (VStr src)); [|done].
  rewrite L. by rewrite decide_False by lia.
Qed.

Lemma source_step_two_segments (formatted_sources src : string) :
  length (re_split src) = 2%nat ->
  source_step formatted_sources (Some (VStr src)) = inl IndexError.
Proof.
  intros L. unfold source_step.
  destruct src as [|a src]; [done|]. cbn [truthy].
  rewrite L. rewrite decide_True by lia.
  unfold index_from_end. rewrite L. by rewrite decide_False by lia.
Qed.

End Retrieval.

(** C5.  Relevance threshold filter.  A retrieved result whose score is at
    least 1.0 takes no part in the answer: with it or without it the
    retrieved-context block and the list of sources are the same, and so is
    the whole run of the handler (the prompt, the events and the persisted
    answer).  What is used is the list [relevant results], every member of
    which has a score strictly below 1.0. *)
Theorem relevance_threshold_filter
    (markdown : string -> string) (query chat : string) (clock : Z * Z)
    (llm : string -> token_stream) (w : world)
    (before after : list (Document * score)) (r : Document * score) :
  SFleb threshold (snd r) = true ->
  docs_text (before ++ r :: after) = docs_text (before ++ after)
  /\ sources (before ++ r :: after) = sources (before ++ after)
  /\ handle_submit_query markdown query chat clock (before ++ r :: after) llm w
     = handle_submit_query markdown query chat clock (before ++ after) llm w
  /\ Forall (fun d => exists s, (d, s) ∈ before ++ after
                                /\ SFltb s threshold = true)
            (relevant (before ++ r :: after)).
Proof.
  intros H%at_least_threshold_fails.
  assert (D : docs_text (before ++ r :: after) = docs_text (before ++ after))
    by (unfold docs_text; by rewrite relevant_drop).
  assert (S : sources (before ++ r :: after) = sources (before ++ after))
    by (unfold sources; by rewrite relevant_drop).
  repeat split; try done.
  - unfold handle_submit_query. by rewrite D, S.
  - rewrite relevant_drop by done. apply Forall_forall.
    intros d Hd. by apply relevant_pass.
Qed.

Lemma relevance_threshold_filter_witness :
  SFleb threshold (snd (mkDocument "far" ∅, threshold)) = true
  /\ docs_text ([(mkDocument "near" ∅, S754_zero false)]
                ++ (mkDocument "far" ∅, threshold) :: [])
     = docs_text ([(mkDocument "near" ∅, S754_zero false)] ++ [])
  /\ sources ([(mkDocument "near" ∅, S754_zero false)]
              ++ (mkDocument "far" ∅, threshold) :: [])
     = sources ([(mkDocument "near" ∅, S754_zero false)] ++ []).
Proof.
  split; [reflexivity|].
  destruct (relevance_threshold_filter (fun s => s) "q" "chat_1" (1, 2)
              (fun _ => ([], EndOfStream)) empty_world
              [(mkDocument "near" ∅, S754_zero false)] []
              (mkDocument "far" ∅, threshold) eq_refl) as (H1 & H2 & _).
  split; [exact H1|exact H2].
Defined.

(** C6.  Source attribution.  For the two identifiers [report.pdf:3:0] and
    [report.pdf:3:1] the sources list has the single entry [report.pdf].
    In general the handler does not compare a label with the labels seen
    so far but looks for it, as a substring, in the text of the list built
    so far.  After [data\annual_report.pdf:0:0] the label [report.pdf] of
    [data\report.pdf:0:0] is found inside the entry of [annual_report.pdf]
    and left out, although the two labels differ and deduplication keeps
    both. *)
Theorem source_labels_substring :
  format_sources [Some (VStr "report.pdf:3:0"); Some (VStr "report.pdf:3:1")]
  = inr (render_labels ["report.pdf"])
  /\ spec_source_labels ["data\annual_report.pdf:0:0"; "data\report.pdf:0:0"]
     = ["annual_report.pdf"; "report.pdf"]
  /\ format_sources [Some (VStr "data\annual_report.pdf:0:0");
                     Some (VStr "data\report.pdf:0:0")]
     = inr (render_labels ["annual_report.pdf"])
  /\ format_sources [Some (VStr "data\annual_report.pdf:0:0");
                     Some (VStr "data\report.pdf:0:0")]
     <> inr (render_labels
               (spec_source_labels
                  ["data\annual_report.pdf:0:0"; "data\report.pdf:0:0"])).
Proof.
  split; [vm_compute; reflexivity|].
  split; [vm_compute; reflexivity|].
  split; [vm_compute; reflexivity|].
  vm_compute. discriminate.
Qed.

(** C9.  Malformed identifiers.  An identifier without separator yields no
    label and no error.  An identifier with exactly one separator splits
    into two segments, fewer than three, so it has no label either; but it
    passes the test [len(split_string) > 1] and [split_string[-3]] then
    raises [IndexError].  The run of the handler ends there, after the
    tokens, without a final response and with the placeholder still
    stored. *)
Theorem two_segment_id_raises :
  length (re_split "report.pdf:3") = 2%nat
  /\ spec_source_labels ["report.pdf:3"] = []
  /\ format_sources [Some (VStr "report.pdf")] = inr EmptyString
  /\ format_sources [Some (VStr "report.pdf:3")] = inl IndexError
  /\ handle_submit_query (fun s => s) "why?" "chat_1" (5, 6)
       [(mkDocument "ctx" {["id" := VStr "report.pdf:3"]}, S754_zero false)]
       (fun _ => (["ok"], EndOfStream)) empty_world
     = (mkWorld
          [ChatMessage.mk 1 "chat_1" "user" "why?" 5;
           ChatMessage.mk 2 "chat_1" "assistant" "Generating..." 6]
          [("chat_1", StartStream 2); ("chat_1", StreamToken "ok" 2)]
          [prompt_of empty_world "why?" "chat_1" (5, 6)
             [(mkDocument "ctx" {["id" := VStr "report.pdf:3"]},
               S754_zero false)]],
        inl IndexError).
Proof. repeat split; vm_compute; reflexivity. Qed.

(** ** Streaming *)

Section Streaming.

Lemma last_set_content (rows : list ChatMessage.t) (i : nat) (c : string) :
  ChatMessage.id <$>
    last (map (fun m => if decide (ChatMessage.id m = i)
                        then ChatMessage.with_content m c else m) rows)
  = ChatMessage.id <$> last rows.
Proof.
  change (map ?f rows) with (f <$> rows). rewrite fmap_last.
  destruct (last rows) as [m|]; [|done]. simpl. by case_decide.
Qed.

Lemma token_events_not_final room mid tokens :
  Forall (fun e => is_final e = false) (token_events room mid tokens).
Proof. unfold token_events. apply Forall_forall. by intros e (t & -> & _)%list_elem_of_fmap. Qed.

End Streaming.

(** C7.  Streaming order.  When the language model yields the tokens
    [tokens] and then ends, the events a run publishes to the conversation's
    room are, in this order: the announcement of the placeholder message's
    id, one token event per token in the order the model yielded them, each
    carrying that id, and after all of them the final response, exactly one,
    unless the citation step raised, in which case none.  The id is the id
    of the last row of the table, the placeholder.  For the tokens
    [The], two spaces, [answer] and no retrieved result the three token
    events come in that order between the announcement and the final
    response. *)
Theorem streaming_order
    (markdown : string -> string) (query chat : string) (clock : Z * Z)
    (results : list (Document * score)) (llm : string -> token_stream)
    (w : world) (tokens : list string) :
  llm (prompt_of w query chat clock results) = (tokens, EndOfStream) ->
  let run := handle_submit_query markdown query chat clock results llm w in
  let mid := placeholder_id w query chat (fst clock) in
  emitted (fst run)
  = emitted w
    ++ (chat, StartStream mid) :: token_events chat mid tokens
    ++ match format_sources (sources results) with
       | inr formatted_sources =>
           [(chat, FinalResponse
                     (markdown (formatted_response (accumulate tokens)
                                  formatted_sources)) mid)]
       | inl _ => []
       end
  /\ ChatMessage.id <$> last (messages (fst run)) = Some mid
  /\ emitted
       (fst (handle_submit_query markdown query chat clock []
               (fun _ => (["The"; "  "; "answer"], EndOfStream)) w))
     = emitted w
       ++ [(chat, StartStream mid);
           (chat, StreamToken "The" mid);
           (chat, StreamToken "  " mid);
           (chat, StreamToken "answer" mid);
           (chat, FinalResponse (markdown "The  answer") mid)].
Proof.
  intros Hllm run mid. subst run.
  rewrite !handle_submit_query_run. cbv zeta. rewrite Hllm. cbn [fst snd].
  fold mid. split; [|split].
  - destruct (format_sources (sources results)); cbn [fst emitted].
    + by rewrite app_nil_r.
    + by rewrite <- app_assoc.
  - destruct (format_sources (sources results)); cbn [fst messages];
      rewrite ?last_set_content, last_app; done.
  - change (format_sources (sources [])) with (@inr exn string EmptyString).
    cbn [fst emitted]. rewrite <- app_assoc. reflexivity.
Qed.

Lemma streaming_order_witness :
  (fun _ : string => (["The"; "  "; "answer"], EndOfStream))
    (prompt_of empty_world "why?" "chat_1" (5, 6) [])
  = (["The"; "  "; "answer"], EndOfStream)
  /\ emitted
       (fst (handle_submit_query (fun s => s) "why?" "chat_1" (5, 6) []
               (fun _ => (["The"; "  "; "answer"], EndOfStream)) empty_world))
     = [("chat_1", StartStream 2);
        ("chat_1", StreamToken "The" 2);
        ("chat_1", StreamToken "  " 2);
        ("chat_1", StreamToken "answer" 2);
        ("chat_1", FinalResponse "The  answer" 2)].
Proof.
  split; [reflexivity|].
  apply (streaming_order (fun s => s) "why?" "chat_1" (5, 6) []
           (fun _ => (["The"; "  "; "answer"], EndOfStream)) empty_world
           ["The"; "  "; "answer"]).
  reflexivity.
Defined.

(** C8.  Mid-stream model failure.  When the stream raises after yielding
    [tokens], the run raises too; the table holds the user message and the
    placeholder, whose content is still [Generating...]; the events
    published are the announcement and one token event per token already
    yielded, none of them taken back, and no final response. *)
Theorem stream_failure_leaves_placeholder
    (markdown : string -> string) (query chat : string) (clock : Z * Z)
    (results : list (Document * score)) (llm : string -> token_stream)
    (w : world) (tokens : list string) :
  llm (prompt_of w query chat clock results) = (tokens, StreamFails) ->
  let run := handle_submit_query markdown query chat clock results llm w in
  let mid := placeholder_id w query chat (fst clock) in
  snd run = inl ModelError
  /\ messages (fst run)
     = messages w ++ [user_row w query chat (fst clock);
                      ChatMessage.mk mid chat "assistant" "Generating..."
                        (snd clock)]
  /\ emitted (fst run)
     = emitted w ++ (chat, StartStream mid) :: token_events chat mid tokens
  /\ Forall (fun e => is_final e = false)
            ((chat, StartStream mid) :: token_events chat mid tokens).
Proof.
  intros Hllm run mid. subst run.
  rewrite handle_submit_query_run. cbv zeta. rewrite Hllm. cbn [fst snd].
  repeat split.
  constructor; [done|apply token_events_not_final].
Qed.

Lemma stream_failure_leaves_placeholder_witness :
  (fun _ : string => (["The"; "  "], StreamFails))
    (prompt_of empty_world "why?" "chat_1" (5, 6) [])
  = (["The"; "  "], StreamFails)
  /\ snd (handle_submit_query (fun s => s) "why?" "chat_1" (5, 6) []
            (fun _ => (["The"; "  "], StreamFails)) empty_world)
     = inl ModelError
  /\ messages
       (fst (handle_submit_query (fun s => s) "why?" "chat_1" (5, 6) []
               (fun _ => (["The"; "  "], StreamFails)) empty_world))
     = [ChatMessage.mk 1 "chat_1" "user" "why?" 5;
        ChatMessage.mk 2 "chat_1" "assistant" "Generating..." 6]
  /\ emitted
       (fst (handle_submit_query (fun s => s) "why?" "chat_1" (5, 6) []
               (fun _ => (["The"; "  "], StreamFails)) empty_world))
     = [("chat_1", StartStream 2); ("chat_1", StreamToken "The" 2);
        ("chat_1", StreamToken "  " 2)].
Proof.
  split; [reflexivity|].
  destruct (stream_failure_leaves_placeholder (fun s => s) "why?" "chat_1"
              (5, 6) [] (fun _ => (["The"; "  "], StreamFails)) empty_world
              ["The"; "  "] eq_refl) as (H1 & H2 & H3 & _).
  split; [exact H1|]. split; [exact H2|exact H3].
Defined.

(** ** History *)

Section History.

Implicit Types (m u a : ChatMessage.t) (l : list ChatMessage.t).





End History.



(** * The rest of the ingestor *)

Import Ingestor.

Section IngestorFacts.

Implicit Types (c : Document) (chunks : list Document) (st : id_state)
  (db : gmap string Document) (E : gset string).

Lemma length_calculate_chunk_ids chunks :
  length (calculate_chunk_ids chunks) = length chunks.
Proof.
  unfold calculate_chunk_ids. by rewrite length_map, length_id_loop.
Qed.

Lemma id_loop_app st (l1 l2 : list Document) :
  id_loop st (l1 ++ l2)
  = id_loop st l1
    ++ id_loop (default st (fst <$> last (id_loop st l1))) l2.
Proof.
  revert st. induction l1 as [|c l1 IH]; intros st; [done|].
  cbn [app id_loop]. rewrite IH. do 2 f_equal.
  destruct (id_loop (fst (assign_chunk_id st c)) l1) as [|x xs]; [done|].
  rewrite last_cons_cons.
  destruct (last (x :: xs)) eqn:L; [done|]. by apply last_None in L.
Qed.

Lemma id_loop_last st (l : list Document) a r :
  last l = Some a -> last (id_loop st l) = Some r ->
  last_identifier (fst r) = Some (current_identifier a).
Proof.
  revert st. induction l as [|c l IH]; intros st; [done|].
  destruct l as [|c' l].
  - simpl. by intros [= ->] [= <-].
  - rewrite last_cons_cons. cbn [id_loop]. rewrite last_cons_cons.
    intros Ha Hr. by eapply IH.
Qed.

(** The loop variables matter to an iteration only through the test on
    the identifier of the chunk before. *)
Lemma assign_chunk_id_restart st c :
  last_identifier st <> Some (current_identifier c) ->
  assign_chunk_id st c = assign_chunk_id id_init c.
Proof.
  intros N. unfold assign_chunk_id. cbv zeta.
  rewrite decide_False by congruence.
  by rewrite (decide_False (P := Some _ = last_identifier id_init)).
Qed.

Lemma id_loop_restart st (l : list Document) :
  (forall b, head l = Some b ->
             last_identifier st <> Some (current_identifier b)) ->
  id_loop st l = id_loop id_init l.
Proof.
  destruct l as [|b l]; [done|]. intros H. cbn [id_loop].
  by rewrite (assign_chunk_id_restart st b) by (by apply H).
Qed.

Lemma before_first_colon_app (s rest : string) :
  all_chars not_colon s = true ->
  before_first_colon (s +:+ colon +:+ rest) = s.
Proof.
  induction s as [|a s IH]; [done|].
  rewrite app_cons_s. simpl. unfold not_colon at 1.
  destruct (Ascii.eqb a ":"); [done|]. simpl. intros H. by rewrite IH.
Qed.

Lemma before_first_colon_no_colon (s : string) :
  all_chars not_colon (before_first_colon s) = true.
Proof.
  induction s as [|a s IH]; [done|]. simpl.
  destruct (Ascii.eqb a ":") eqn:E; [done|]. simpl.
  unfold not_colon at 1. by rewrite E.
Qed.

(** Every path [get_indexed_pdf_paths] reports is free of colons. *)
Lemma get_indexed_pdf_paths_no_colon db p :
  p ∈ get_indexed_pdf_paths db -> all_chars not_colon p = true.
Proof.
  unfold get_indexed_pdf_paths. intros (i & -> & _)%elem_of_map.
  apply before_first_colon_no_colon.
Qed.

(** What [select_new] selects. *)
Lemma select_new_spec E chunks new :
  select_new E chunks = Some new ->
  (list_to_set (omap doc_id new) : gset string)
    = list_to_set (omap doc_id chunks) ∖ E
  /\ sublist new chunks
  /\ length (omap doc_id new) = length new.
Proof.
  revert new. induction chunks as [|c0 chunks IH]; intros new; simpl.
  - intros [= <-]. split; [set_solver|]. split; [constructor|done].
  - destruct (doc_id c0) as [i0|] eqn:Hi0; [|done]. simpl.
    destruct (select_new E chunks) as [rest|]; [|done]. simpl.
    destruct (IH rest eq_refl) as (Hset & Hsub & Hlen).
    intros [= <-]. case_decide.
    + split; [set_solver|]. split; [by apply sublist_cons|done].
    + simpl. rewrite Hi0. simpl. split; [set_solver|].
      split; [by apply sublist_skip|]. f_equal. exact Hlen.
Qed.

Lemma mapM_doc_id_omap (l : list Document) ids :
  mapM doc_id l = Some ids -> ids = omap doc_id l /\ length ids = length l.
Proof.
  intros H%mapM_Some_1. induction H as [|c i l ids Hc _ [IH1 IH2]]; [done|].
  subst ids. simpl. rewrite Hc. simpl. split; [done|]. f_equal. exact IH2.
Qed.

Lemma dom_upsert_all_eq db (docs : list Document) (ids : list string) :
  length ids = length docs ->
  dom (upsert_all db docs ids) = dom db ∪ list_to_set ids.
Proof.
  unfold upsert_all. revert db docs.
  induction ids as [|i ids IH]; intros db [|d docs]; simpl; try done.
  - intros _. set_solver.
  - intros [= Hlen]. rewrite IH by done. rewrite dom_insert_L. set_solver.
Qed.

Lemma upsert_all_other db (docs : list Document) (ids : list string) i :
  i ∉ ids -> upsert_all db docs ids !! i = db !! i.
Proof.
  unfold upsert_all. revert db docs.
  induction ids as [|j ids IH]; intros db [|d docs] Hi; simpl; try done.
  rewrite IH by set_solver. apply lookup_insert_ne. set_solver.
Qed.


(** One call of [add_to_chroma], in full: the store takes the new chunks
    when their identifiers are pairwise distinct, and refuses the batch
    otherwise. *)
Lemma add_to_chroma_spec db chunks :
  exists new,
    select_new (dom db) (calculate_chunk_ids chunks) = Some new
    /\ add_to_chroma db chunks
       = if decide (NoDup (omap doc_id new))
         then Some (mkSync (upsert_all db new (omap doc_id new))
                      (calculate_chunk_ids chunks) (length new))
         else None.
Proof.
  assert (Hid := calculate_chunk_ids_has_id chunks).
  destruct (select_new_total (dom db) (calculate_chunk_ids chunks) Hid)
    as (new & Hnew & Hsub & _).
  exists new. split; [done|].
  unfold add_to_chroma. rewrite Hnew. simpl.
  destruct new as [|c0 new'] eqn:En.
  - rewrite decide_True by constructor. done.
  - rewrite <- En in *.
    destruct (mapM_doc_id_total new) as (ids & Hids & _).
    { intros c Hc. apply Hid. by apply Hsub. }
    rewrite Hids. simpl. apply mapM_doc_id_omap in Hids as [-> _].
    unfold add_documents. rewrite En.
    by destruct (decide (NoDup (omap doc_id (c0 :: new')))).
Qed.

(** What a call that returned has done. *)
Lemma add_to_chroma_returns db chunks r :
  add_to_chroma db chunks = Some r ->
  exists new,
    select_new (dom db) (calculate_chunk_ids chunks) = Some new
    /\ NoDup (omap doc_id new)
    /\ chunks_after r = calculate_chunk_ids chunks
    /\ added r = length new
    /\ db_after r = upsert_all db new (omap doc_id new).
Proof.
  destruct (add_to_chroma_spec db chunks) as (new & Hnew & ->).
  case_decide; [|done]. intros [= <-]. by exists new.
Qed.



End IngestorFacts.

Section IngestorSets.

Implicit Types (c : Document) (chunks : list Document)
  (db : gmap string Document).


Lemma add_to_chroma_dom_eq db chunks r :
  add_to_chroma db chunks = Some r ->
  dom (db_after r) = dom db ∪ batch_ids chunks.
Proof.
  intros (new & Hnew & _ & _ & _ & Hdb)%add_to_chroma_returns.
  apply select_new_spec in Hnew as (Hset & _ & Hlen).
  rewrite Hdb, dom_upsert_all_eq by done.
  unfold batch_ids. rewrite Hset.
  apply set_eq. intros i. rewrite !elem_of_union, elem_of_difference.
  destruct (decide (i ∈ dom db)); naive_solver.
Qed.

End IngestorSets.

(** X1.  [calculate_chunk_ids] keeps the chunks as they are: the list has
    the same length, and the chunk at each position keeps its text and
    every metadata entry other than [id], which it now has. *)
Theorem calculate_chunk_ids_frame
    (chunks : list Document) (i : nat) (c : Document) :
  chunks !! i = Some c ->
  length (calculate_chunk_ids chunks) = length chunks
  /\ exists c',
       calculate_chunk_ids chunks !! i = Some c'
       /\ page_content c' = page_content c
       /\ (forall k, k <> "id" -> metadata c' !! k = metadata c !! k)
       /\ is_Some (doc_id c').
Proof.
  intros Hc. split; [apply length_calculate_chunk_ids|].
  destruct (id_loop_lookup chunks id_init i c Hc) as [st' Hr].
  exists (snd (assign_chunk_id st' c)).
  unfold calculate_chunk_ids. rewrite list_lookup_fmap, Hr.
  split; [done|]. split; [done|]. split.
  - intros k Hk. unfold assign_chunk_id, set_metadata. simpl.
    by rewrite lookup_insert_ne.
  - rewrite doc_id_assign. eauto.
Qed.

Lemma calculate_chunk_ids_frame_witness :
  [offset_chunk "abc" "data/a.pdf" 0; offset_chunk "def" "data/a.pdf" 1600]
    !! 1%nat = Some (offset_chunk "def" "data/a.pdf" 1600)
  /\ length (calculate_chunk_ids
               [offset_chunk "abc" "data/a.pdf" 0;
                offset_chunk "def" "data/a.pdf" 1600]) = 2%nat
  /\ exists c',
       calculate_chunk_ids
         [offset_chunk "abc" "data/a.pdf" 0;
          offset_chunk "def" "data/a.pdf" 1600] !! 1%nat = Some c'
       /\ page_content c' = "def"
       /\ (forall k, k <> "id" ->
             metadata c' !! k
             = metadata (offset_chunk "def" "data/a.pdf" 1600) !! k)
       /\ is_Some (doc_id c').
Proof.
  split; [reflexivity|].
  exact (calculate_chunk_ids_frame
           [offset_chunk "abc" "data/a.pdf" 0;
            offset_chunk "def" "data/a.pdf" 1600]
           1 (offset_chunk "def" "data/a.pdf" 1600) eq_refl).
Defined.

(** X2.  The identifiers of a document do not depend on what is ingested
    before it: when the last chunk of [before] and the first chunk of
    [after] differ in their source-and-position text, numbering the two
    lists together gives the same chunks as numbering each on its own. *)
Theorem calculate_chunk_ids_app
    (before after : list Document) :
  (forall a b, last before = Some a -> head after = Some b ->
               current_identifier a <> current_identifier b) ->
  calculate_chunk_ids (before ++ after)
  = calculate_chunk_ids before ++ calculate_chunk_ids after.
Proof.
  intros H. unfold calculate_chunk_ids.
  rewrite id_loop_app, map_app. f_equal. f_equal.
  apply id_loop_restart. intros b Hb.
  destruct (last (id_loop id_init before)) as [r|] eqn:L; simpl; [|done].
  destruct (last before) as [a|] eqn:La.
  - rewrite (id_loop_last id_init before a r La L).
    intros [= E]. by apply (H a b).
  - apply last_None in La. by subst before.
Qed.

Lemma calculate_chunk_ids_app_witness :
  (forall a b,
      last [offset_chunk "abc" "data/a.pdf" 0] = Some a ->
      head [offset_chunk "xyz" "data/b.pdf" 0] = Some b ->
      current_identifier a <> current_identifier b)
  /\ calculate_chunk_ids
       ([offset_chunk "abc" "data/a.pdf" 0]
        ++ [offset_chunk "xyz" "data/b.pdf" 0])
     = calculate_chunk_ids [offset_chunk "abc" "data/a.pdf" 0]
       ++ calculate_chunk_ids [offset_chunk "xyz" "data/b.pdf" 0].
Proof.
  assert (H : forall a b,
             last [offset_chunk "abc" "data/a.pdf" 0] = Some a ->
             head [offset_chunk "xyz" "data/b.pdf" 0] = Some b ->
             current_identifier a <> current_identifier b).
  { intros a b [= <-] [= <-]. vm_compute. discriminate. }
  split; [exact H|].
  exact (calculate_chunk_ids_app _ _ H).
Defined.



(** X4.  [add_to_chroma] never replaces a stored document: when it
    returns, whatever was in the collection under an identifier is still
    there, also when the batch has a chunk with the same identifier and
    another text. *)
Theorem add_to_chroma_keeps_stored
    (db : gmap string Document) (chunks : list Document)
    (i : string) (d : Document) (r : sync_result) :
  db !! i = Some d ->
  add_to_chroma db chunks = Some r ->
  db_after r !! i = Some d.
Proof.
  intros Hi (new & Hnew & _ & _ & _ & Hdb)%add_to_chroma_returns.
  rewrite Hdb, upsert_all_other; [done|].
  apply select_new_spec in Hnew as (Hset & _).
  intros Hin. assert (i ∈ (list_to_set (omap doc_id new) : gset string))
    as Hin' by (by apply elem_of_list_to_set).
  rewrite Hset in Hin'. apply elem_of_difference in Hin' as [_ N].
  apply N. apply elem_of_dom. eauto.
Qed.

Lemma add_to_chroma_keeps_stored_witness :
  ({["data/a.pdf:0:0" := mkDocument "old text" ∅]}
     : gmap string Document) !! "data/a.pdf:0:0"
  = Some (mkDocument "old text" ∅)
  /\ add_to_chroma {["data/a.pdf:0:0" := mkDocument "old text" ∅]}
       [offset_chunk "new text" "data/a.pdf" 0]
     = Some (mkSync {["data/a.pdf:0:0" := mkDocument "old text" ∅]}
               (calculate_chunk_ids [offset_chunk "new text" "data/a.pdf" 0])
               0)
  /\ db_after
       (mkSync {["data/a.pdf:0:0" := mkDocument "old text" ∅]}
          (calculate_chunk_ids [offset_chunk "new text" "data/a.pdf" 0]) 0)
       !! "data/a.pdf:0:0"
     = Some (mkDocument "old text" ∅).
Proof.
  assert (H : add_to_chroma {["data/a.pdf:0:0" := mkDocument "old text" ∅]}
                [offset_chunk "new text" "data/a.pdf" 0]
              = Some (mkSync {["data/a.pdf:0:0" := mkDocument "old text" ∅]}
                        (calculate_chunk_ids
                           [offset_chunk "new text" "data/a.pdf" 0])
                        0)) by (vm_compute; reflexivity).
  split; [reflexivity|]. split; [exact H|].
  exact (add_to_chroma_keeps_stored
           {["data/a.pdf:0:0" := mkDocument "old text" ∅]}
           [offset_chunk "new text" "data/a.pdf" 0]
           "data/a.pdf:0:0" (mkDocument "old text" ∅) _ eq_refl H).
Defined.



(** X23.  When a call of [add_to_chroma] on a collection and a chunk list
    returns, a second call with the same list, be it the very list the
    first call wrote the identifiers on or an equal fresh one, returns
    too, adds zero chunks and leaves the collection, and so its set of
    identifiers, as the first call left it. *)
Theorem add_to_chroma_twice
    (db : gmap string Document) (chunks : list Document)
    (first : sync_result) :
  add_to_chroma db chunks = Some first ->
  exists second,
    add_to_chroma (db_after first) (chunks_after first) = Some second
    /\ add_to_chroma (db_after first) chunks = Some second
    /\ added second = 0%nat
    /\ db_after second = db_after first
    /\ dom (db_after second) = dom (db_after first).
Proof.
  intros [Hafter Hall]%add_to_chroma_stored.
  assert (add_to_chroma (db_after first) chunks
          = Some (mkSync (db_after first) (calculate_chunk_ids chunks) 0))
    as Hsecond.
  { unfold add_to_chroma. by rewrite (select_new_nothing _ _ Hall). }
  exists (mkSync (db_after first) (calculate_chunk_ids chunks) 0).
  split; [|done].
  rewrite Hafter. unfold add_to_chroma. rewrite calculate_chunk_ids_again.
  by rewrite (select_new_nothing _ _ Hall).
Qed.

Lemma add_to_chroma_twice_witness :
  add_to_chroma ∅ [offset_chunk "abc" "data/a.pdf" 0;
                   offset_chunk "def" "data/a.pdf" 1600]
  = Some (mkSync
            (upsert_all ∅
               (calculate_chunk_ids
                  [offset_chunk "abc" "data/a.pdf" 0;
                   offset_chunk "def" "data/a.pdf" 1600])
               ["data/a.pdf:0:0"; "data/a.pdf:1600:0"])
            (calculate_chunk_ids
               [offset_chunk "abc" "data/a.pdf" 0;
                offset_chunk "def" "data/a.pdf" 1600])
            2)
  /\ exists second,
       add_to_chroma
         (upsert_all ∅
            (calculate_chunk_ids
               [offset_chunk "abc" "data/a.pdf" 0;
                offset_chunk "def" "data/a.pdf" 1600])
            ["data/a.pdf:0:0"; "data/a.pdf:1600:0"])
         [offset_chunk "abc" "data/a.pdf" 0;
          offset_chunk "def" "data/a.pdf" 1600]
       = Some second
       /\ added second = 0%nat.
Proof.
  assert (H : add_to_chroma ∅ [offset_chunk "abc" "data/a.pdf" 0;
                               offset_chunk "def" "data/a.pdf" 1600]
              = Some (mkSync
                        (upsert_all ∅
                           (calculate_chunk_ids
                              [offset_chunk "abc" "data/a.pdf" 0;
                               offset_chunk "def" "data/a.pdf" 1600])
                           ["data/a.pdf:0:0"; "data/a.pdf:1600:0"])
                        (calculate_chunk_ids
                           [offset_chunk "abc" "data/a.pdf" 0;
                            offset_chunk "def" "data/a.pdf" 1600])
                        2)) by (vm_compute; reflexivity).
  split; [exact H|].
  destruct (add_to_chroma_twice _ _ _ H) as (second & _ & H2 & H3 & _).
  exists second. split; [exact H2|exact H3].
Defined.

Import Routes.

Section IndexedPaths.

Implicit Types (c : Document) (chunks : list Document)
  (db : gmap string Document).

Lemma calculate_chunk_ids_id_of_source chunks c s :
  c ∈ chunks ->
  metadata c !! "source" = Some (VStr s) ->
  exists rest, s +:+ colon +:+ rest
               ∈ omap doc_id (calculate_chunk_ids chunks).
Proof.
  intros (i & Hi)%list_elem_of_lookup_1 Hs.
  destruct (id_loop_lookup chunks id_init i c Hi) as [st' Hr].
  eexists. apply list_elem_of_omap.
  exists (snd (assign_chunk_id st' c)). split.
  - apply list_elem_of_lookup_2 with i. unfold calculate_chunk_ids.
    by rewrite list_lookup_fmap, Hr.
  - rewrite doc_id_assign. unfold current_identifier, chunk_source.
    rewrite Hs. simpl. by rewrite !app_assoc_s.
Qed.

Lemma get_indexed_pdf_paths_mono db1 db2 p :
  dom db1 ⊆ dom db2 ->
  p ∈ get_indexed_pdf_paths db1 -> p ∈ get_indexed_pdf_paths db2.
Proof.
  unfold get_indexed_pdf_paths. intros Hsub (i & -> & Hi)%elem_of_map.
  apply elem_of_map_2. by apply Hsub.
Qed.

Lemma source_reported db chunks r c s :
  add_to_chroma db chunks = Some r ->
  c ∈ chunks ->
  metadata c !! "source" = Some (VStr s) ->
  all_chars not_colon s = true ->
  s ∈ get_indexed_pdf_paths (db_after r).
Proof.
  intros Hr Hc Hs Hcolon.
  destruct (calculate_chunk_ids_id_of_source chunks c s Hc Hs) as [rest Hin].
  unfold get_indexed_pdf_paths. apply elem_of_map.
  exists (s +:+ colon +:+ rest). split.
  - by rewrite before_first_colon_app.
  - rewrite (add_to_chroma_dom_eq db chunks r Hr).
    apply elem_of_union_r. unfold batch_ids. by apply elem_of_list_to_set.
Qed.

End IndexedPaths.

(** X6.  Once a batch is added, that is, once [add_to_chroma] has
    returned, the source path of each of its chunks is among the paths
    [get_indexed_pdf_paths] reports, provided the path has no colon in
    it. *)
Theorem indexed_source_reported
    (db : gmap string Document) (chunks : list Document) (c : Document)
    (s : string) (r : sync_result) :
  add_to_chroma db chunks = Some r ->
  c ∈ chunks ->
  metadata c !! "source" = Some (VStr s) ->
  all_chars not_colon s = true ->
  s ∈ get_indexed_pdf_paths (db_after r).
Proof. apply source_reported. Qed.

Lemma indexed_source_reported_witness :
  add_to_chroma ∅ [offset_chunk "abc" "data/a.pdf" 0]
  = Some (mkSync
            (upsert_all ∅
               (calculate_chunk_ids [offset_chunk "abc" "data/a.pdf" 0])
               ["data/a.pdf:0:0"])
            (calculate_chunk_ids [offset_chunk "abc" "data/a.pdf" 0]) 1)
  /\ offset_chunk "abc" "data/a.pdf" 0 ∈ [offset_chunk "abc" "data/a.pdf" 0]
  /\ metadata (offset_chunk "abc" "data/a.pdf" 0) !! "source"
     = Some (VStr "data/a.pdf")
  /\ all_chars not_colon "data/a.pdf" = true
  /\ "data/a.pdf"
     ∈ get_indexed_pdf_paths
         (upsert_all ∅
            (calculate_chunk_ids [offset_chunk "abc" "data/a.pdf" 0])
            ["data/a.pdf:0:0"]).
Proof.
  assert (H0 : add_to_chroma ∅ [offset_chunk "abc" "data/a.pdf" 0]
               = Some (mkSync
                         (upsert_all ∅
                            (calculate_chunk_ids
                               [offset_chunk "abc" "data/a.pdf" 0])
                            ["data/a.pdf:0:0"])
                         (calculate_chunk_ids
                            [offset_chunk "abc" "data/a.pdf" 0]) 1))
    by (vm_compute; reflexivity).
  assert (H : offset_chunk "abc" "data/a.pdf" 0
              ∈ [offset_chunk "abc" "data/a.pdf" 0]) by (by left).
  split; [exact H0|]. split; [exact H|].
  split; [reflexivity|]. split; [reflexivity|].
  exact (indexed_source_reported ∅ _ _ "data/a.pdf" _ H0 H eq_refl eq_refl).
Defined.

(** X7.  A path with a colon in it, such as an absolute Windows path, is
    never among the paths reported as indexed, whatever the collection
    holds; every ingestion event therefore takes it for a new file and
    starts by loading again. *)
Theorem colon_path_always_new
    (loader : string -> option (list Document))
    (splitter : list Document -> list Document)
    (data_paths : list string) (sid : string)
    (db : gmap string Document) (p : string) :
  p ∈ data_paths ->
  all_chars not_colon p = false ->
  p ∈ new_paths db data_paths
  /\ head (published
             (handle_update_chroma_event loader splitter data_paths sid db))
     = Some (sid, LoadingProgress 1 (length (new_paths db data_paths))).
Proof.
  intros Hp Hcolon.
  assert (Hnew : p ∈ new_paths db data_paths).
  { unfold new_paths. apply list_elem_of_filter. split; [|done].
    intros Hin%get_indexed_pdf_paths_no_colon. congruence. }
  split; [done|]. unfold handle_update_chroma_event. cbv zeta.
  destruct (new_paths db data_paths) as [|q paths] eqn:E.
  { by apply elem_of_nil in Hnew. }
  rewrite decide_False by done. cbn [load_loop].
  destruct (loader q); cbn [fst snd]; [|done].
  destruct (snd (load_loop _ _ _ _ paths)); cbn [fst snd fmap option_fmap option_map];
    [|done].
  by destruct (add_to_chroma _ _).
Qed.

Lemma colon_path_always_new_witness :
  "C:\docs\a.pdf" ∈ ["C:\docs\a.pdf"]
  /\ all_chars not_colon "C:\docs\a.pdf" = false
  /\ "C:\docs\a.pdf"
     ∈ new_paths {["C:\docs\a.pdf:0:0" := mkDocument "abc" ∅]}
         ["C:\docs\a.pdf"].
Proof.
  assert (H : "C:\docs\a.pdf" ∈ ["C:\docs\a.pdf"]) by (by left).
  split; [exact H|]. split; [reflexivity|].
  exact (proj1 (colon_path_always_new (fun _ => None) (fun d => d)
                  ["C:\docs\a.pdf"] "sid"
                  {["C:\docs\a.pdf:0:0" := mkDocument "abc" ∅]}
                  "C:\docs\a.pdf" H eq_refl)).
Defined.



(** X9.  [reset_chroma] answers [success] in every case: [reset_db]
    catches the exception of a reset the store refused, so the route's own
    handler never runs, and the collection is then left as it was. *)
Theorem reset_chroma_always_success
    (store_fails : bool) (db : gmap string Document) :
  reset_chroma store_fails db
  = (if store_fails then db else ∅, "success").
Proof. by destruct store_fails. Qed.

(** X10.  [get_available_models] never offers an embedding model: every
    name it returns contains neither [all-minilm] nor [embed], the
    fallback included.  On a good answer it returns the other names in
    the order received, and nothing else: no fallback is put in when all
    of them are embedding models. *)
Theorem available_models_not_embedding
    (r : http_answer) (names : list string) :
  Forall (fun n => contains "all-minilm" n = false
                   /\ contains "embed" n = false)
         (get_available_models r)
  /\ get_available_models (Answer 200 (Some (Some <$> names)))
     = filter (fun n => is_chat_model n = true) names.
Proof.
  split.
  - assert (F : Forall (fun n => contains "all-minilm" n = false
                                 /\ contains "embed" n = false)
                  fallback_models) by (by repeat constructor).
    destruct r as [|status body]; simpl; [done|].
    case_decide; [|done].
    destruct (body ≫= mapM (fun name => name)) as [l|]; [|done].
    apply Forall_forall. intros n [Hn _]%list_elem_of_filter.
    unfold is_chat_model in Hn. apply andb_prop in Hn as [H1 H2].
    split; by apply negb_true_iff.
  - unfold get_available_models. rewrite decide_True by done.
    change (Some (Some <$> names) ≫= mapM (fun name => name))
      with (mapM (fun name : option string => name) (Some <$> names)).
    assert (mapM (fun name : option string => name) (Some <$> names)
            = Some names) as ->; [|done].
    apply mapM_Some. induction names; by constructor.
Qed.

Section UpdateEvent.

Implicit Types (loader : string -> option (list Document))
  (paths : list string) (db : gmap string Document).

Lemma load_loop_snd loader sid total idx paths :
  snd (load_loop loader sid total idx paths)
  = (fun docss => concat docss) <$> mapM loader paths.
Proof.
  revert idx. induction paths as [|p paths IH]; intros idx; [done|].
  cbn [load_loop]. simpl. destruct (loader p) as [doc|]; [|done].
  cbn [fst snd]. rewrite IH. simpl.
  by destruct (mapM loader paths).
Qed.

Lemma load_loop_fst_ok loader sid total idx paths docss :
  mapM loader paths = Some docss ->
  fst (load_loop loader sid total idx paths)
  = map (fun i => (sid, LoadingProgress (S i) total))
        (seq idx (length paths)).
Proof.
  revert idx docss. induction paths as [|p paths IH]; intros idx docss;
    [done|].
  cbn [load_loop]. simpl. destruct (loader p) as [doc|]; [|done]. simpl.
  destruct (mapM loader paths) as [rest|] eqn:E; [|done]. intros _.
  cbn [fst]. f_equal. by eapply IH.
Qed.

Lemma load_loop_fst_progress loader sid total idx paths :
  Forall (fun e => exists i, e = (sid, LoadingProgress i total))
         (fst (load_loop loader sid total idx paths)).
Proof.
  revert idx. induction paths as [|p paths IH]; intros idx; [constructor|].
  cbn [load_loop]. destruct (loader p); cbn [fst];
    repeat constructor; eauto.
Qed.

Lemma filter_none {A} (P : A -> Prop) `{!forall x, Decision (P x)}
    (l : list A) :
  Forall (fun x => ~ P x) l -> filter P l = [].
Proof.
  induction 1 as [|x l Hx _ IH]; [done|]. by rewrite filter_cons_False.
Qed.

(** The event when there are new files and every one of them loads. *)
Lemma handle_update_chroma_event_loaded loader
    (splitter : list Document -> list Document) (data_paths : list string)
    sid db (docss : list (list Document)) :
  new_paths db data_paths <> [] ->
  mapM loader (new_paths db data_paths) = Some docss ->
  handle_update_chroma_event loader splitter data_paths sid db
  = match add_to_chroma db (splitter (concat docss)) with
    | Some s =>
        mkUpdate (db_after s)
          (progress_events sid (length (new_paths db data_paths))
           ++ [(sid, UpdateProgress);
               (sid, UpdateComplete (length (new_paths db data_paths)))])
          true
    | None =>
        mkUpdate db
          (progress_events sid (length (new_paths db data_paths))
           ++ [(sid, UpdateProgress)])
          false
    end.
Proof.
  intros Hne Hload. unfold handle_update_chroma_event.
  cbv zeta. rewrite decide_False by (by destruct (new_paths db data_paths)).
  rewrite load_loop_snd, Hload. cbn [fmap option_fmap option_map].
  rewrite (load_loop_fst_ok _ _ _ _ _ _ Hload).
  unfold split_documents, progress_events.
  by destruct (add_to_chroma db (splitter (concat docss))).
Qed.

End UpdateEvent.

(** X11.  The events of an ingestion that finds new files and loads them
    all: one [loading_progress] per new file, numbered from 1 to the
    number of new files in order, then [update_progress], all to the
    caller's room.  When [add_to_chroma] returns, [update_complete]
    follows, with the number of new files, not of chunks, as its count,
    and the collection is the one that single [add_to_chroma] of all the
    new chunks leaves.  When the store refuses the batch, the handler
    raises after [update_progress]: no [update_complete] is published and
    the collection is untouched. *)
Theorem update_event_progress
    (loader : string -> option (list Document))
    (splitter : list Document -> list Document)
    (data_paths : list string) (sid : string)
    (db : gmap string Document) (docss : list (list Document)) :
  new_paths db data_paths <> [] ->
  mapM loader (new_paths db data_paths) = Some docss ->
  let n := length (new_paths db data_paths) in
  let r := handle_update_chroma_event loader splitter data_paths sid db in
  match add_to_chroma db (splitter (concat docss)) with
  | Some s =>
      returned r = true
      /\ published r
         = progress_events sid n
           ++ [(sid, UpdateProgress); (sid, UpdateComplete n)]
      /\ store_after r = db_after s
  | None =>
      returned r = false
      /\ published r = progress_events sid n ++ [(sid, UpdateProgress)]
      /\ store_after r = db
  end.
Proof.
  intros Hne Hload n r. subst r n.
  rewrite (handle_update_chroma_event_loaded _ _ _ _ _ _ Hne Hload).
  by destruct (add_to_chroma db (splitter (concat docss))).
Qed.

Lemma update_event_progress_witness :
  new_paths ∅ ["data/a.pdf"; "data/b.pdf"] <> []
  /\ mapM (fun p => Some [mkDocument "abc" {["source" := VStr p]}])
       (new_paths ∅ ["data/a.pdf"; "data/b.pdf"])
     = Some [[mkDocument "abc" {["source" := VStr "data/a.pdf"]}];
             [mkDocument "abc" {["source" := VStr "data/b.pdf"]}]]
  /\ published
       (handle_update_chroma_event
          (fun p => Some [mkDocument "abc" {["source" := VStr p]}])
          (fun d => d) ["data/a.pdf"; "data/b.pdf"] "sid" ∅)
     = [("sid", LoadingProgress 1 2); ("sid", LoadingProgress 2 2);
        ("sid", UpdateProgress); ("sid", UpdateComplete 2)].
Proof.
  assert (H1 : new_paths ∅ ["data/a.pdf"; "data/b.pdf"] <> [])
    by (vm_compute; discriminate).
  assert (H2 : mapM (fun p => Some [mkDocument "abc" {["source" := VStr p]}])
                 (new_paths ∅ ["data/a.pdf"; "data/b.pdf"])
               = Some [[mkDocument "abc" {["source" := VStr "data/a.pdf"]}];
                       [mkDocument "abc" {["source" := VStr "data/b.pdf"]}]])
    by (vm_compute; reflexivity).
  split; [exact H1|]. split; [exact H2|].
  pose proof (update_event_progress
                (fun p => Some [mkDocument "abc" {["source" := VStr p]}])
                (fun d => d) ["data/a.pdf"; "data/b.pdf"] "sid" ∅
                _ H1 H2) as H.
  cbv zeta in H.
  destruct (add_to_chroma ∅
              ((fun d : list Document => d)
                 (concat
                    [[mkDocument "abc" {["source" := VStr "data/a.pdf"]}];
                     [mkDocument "abc" {["source" := VStr "data/b.pdf"]}]])))
    as [s|] eqn:E.
  - exact (proj1 (proj2 H)).
  - vm_compute in E. discriminate E.
Defined.

(** X12.  No partial commit: when the loader raises on one of the new
    files, the handler raises; the events published are loading-progress
    events only, and the collection is untouched, also by the files that
    loaded before the failing one. *)
Theorem update_event_loader_failure
    (loader : string -> option (list Document))
    (splitter : list Document -> list Document)
    (data_paths : list string) (sid : string)
    (db : gmap string Document) (p : string) :
  p ∈ new_paths db data_paths ->
  loader p = None ->
  let n := length (new_paths db data_paths) in
  let r := handle_update_chroma_event loader splitter data_paths sid db in
  returned r = false
  /\ store_after r = db
  /\ Forall (fun e => exists i, e = (sid, LoadingProgress i n)) (published r).
Proof.
  intros Hp Hfail n r. subst r n. unfold handle_update_chroma_event.
  cbv zeta.
  rewrite decide_False
    by (destruct (new_paths db data_paths); [by apply elem_of_nil in Hp|done]).
  rewrite load_loop_snd.
  assert (mapM loader (new_paths db data_paths) = None) as ->.
  { apply mapM_None. apply Exists_exists. exists p. by split. }
  cbn [fmap option_fmap option_map]. split; [done|]. split; [done|].
  apply load_loop_fst_progress.
Qed.

Lemma update_event_loader_failure_witness :
  "data/b.pdf" ∈ new_paths ∅ ["data/a.pdf"; "data/b.pdf"]
  /\ (fun p : string =>
        if decide (p = "data/b.pdf") then None
        else Some [mkDocument "abc" {["source" := VStr p]}]) "data/b.pdf"
     = None
  /\ store_after
       (handle_update_chroma_event
          (fun p => if decide (p = "data/b.pdf") then None
                    else Some [mkDocument "abc" {["source" := VStr p]}])
          (fun d => d) ["data/a.pdf"; "data/b.pdf"] "sid" ∅)
     = ∅.
Proof.
  assert (H1 : "data/b.pdf" ∈ new_paths ∅ ["data/a.pdf"; "data/b.pdf"]).
  { apply (bool_decide_unpack _). vm_compute. exact I. }
  split; [exact H1|]. split; [reflexivity|].
  exact (proj1 (proj2 (update_event_loader_failure
                         (fun p => if decide (p = "data/b.pdf") then None
                                   else Some [mkDocument "abc"
                                                {["source" := VStr p]}])
                         (fun d => d) ["data/a.pdf"; "data/b.pdf"] "sid" ∅
                         "data/b.pdf" H1 eq_refl))).
Defined.

(** X13.  A second ingestion event after one that returned finds nothing
    to do, when every new file has a path without colon and gave at least
    one chunk carrying that path as its source: it publishes the single
    event [update_complete] with count 0 and leaves the collection as it
    is. *)
Theorem update_event_twice
    (loader : string -> option (list Document))
    (splitter : list Document -> list Document)
    (data_paths : list string) (sid : string)
    (db : gmap string Document) (docss : list (list Document)) :
  mapM loader (new_paths db data_paths) = Some docss ->
  Forall (fun p => all_chars not_colon p = true
                   /\ exists c, c ∈ splitter (concat docss)
                                /\ metadata c !! "source" = Some (VStr p))
         (new_paths db data_paths) ->
  let first := handle_update_chroma_event loader splitter data_paths sid db in
  returned first = true ->
  handle_update_chroma_event loader splitter data_paths sid
    (store_after first)
  = mkUpdate (store_after first) [(sid, UpdateComplete 0)] true.
Proof.
  intros Hload Hsrc first Hret.
  assert (Hnone : new_paths (store_after first) data_paths = []).
  { destruct (new_paths db data_paths) as [|q qs] eqn:E.
    - subst first. unfold handle_update_chroma_event. cbv zeta.
      rewrite E. by rewrite decide_True.
    - assert (Hne : new_paths db data_paths <> []) by (by rewrite E).
      rewrite <- E in Hload, Hsrc.
      subst first.
      rewrite (handle_update_chroma_event_loaded _ _ _ _ _ _ Hne Hload)
        in Hret |- *.
      destruct (add_to_chroma db (splitter (concat docss))) as [r|] eqn:Hr;
        [|done].
      cbn [store_after].
      unfold new_paths at 1. apply filter_none, Forall_forall.
      intros p Hp Hnew. apply Hnew.
      destruct (decide (p ∈ get_indexed_pdf_paths db)) as [Hin|Hout].
      + eapply get_indexed_pdf_paths_mono; [|exact Hin].
        rewrite (add_to_chroma_dom_eq _ _ _ Hr). set_solver.
      + rewrite Forall_forall in Hsrc.
        destruct (Hsrc p) as (Hcolon & c & Hc & Hs).
        { unfold new_paths. by apply list_elem_of_filter. }
        by eapply source_reported. }
  unfold handle_update_chroma_event at 1. cbv zeta. rewrite Hnone.
  by rewrite decide_True.
Qed.

Lemma update_event_twice_witness :
  mapM (fun p => Some [mkDocument "abc" {["source" := VStr p]}])
    (new_paths ∅ ["data/a.pdf"])
  = Some [[mkDocument "abc" {["source" := VStr "data/a.pdf"]}]]
  /\ returned
       (handle_update_chroma_event
          (fun p => Some [mkDocument "abc" {["source" := VStr p]}])
          (fun d => d) ["data/a.pdf"] "sid" ∅)
     = true
  /\ published
       (handle_update_chroma_event
          (fun p => Some [mkDocument "abc" {["source" := VStr p]}])
          (fun d => d) ["data/a.pdf"] "sid"
          (store_after
             (handle_update_chroma_event
                (fun p => Some [mkDocument "abc" {["source" := VStr p]}])
                (fun d => d) ["data/a.pdf"] "sid" ∅)))
     = [("sid", UpdateComplete 0)].
Proof.
  assert (H1 : mapM (fun p => Some [mkDocument "abc" {["source" := VStr p]}])
                 (new_paths ∅ ["data/a.pdf"])
               = Some [[mkDocument "abc" {["source" := VStr "data/a.pdf"]}]])
    by (vm_compute; reflexivity).
  split; [exact H1|].
  assert (H2 : Forall
                 (fun p => all_chars not_colon p = true
                           /\ exists c,
                                c ∈ (fun d : list Document => d)
                                      (concat
                                         [[mkDocument "abc"
                                             {["source" := VStr "data/a.pdf"]}]])
                                /\ metadata c !! "source" = Some (VStr p))
                 (new_paths ∅ ["data/a.pdf"])).
  { replace (new_paths ∅ ["data/a.pdf"]) with ["data/a.pdf"]
      by (vm_compute; reflexivity).
    constructor; [|constructor]. split; [reflexivity|].
    eexists. split; [by left|reflexivity]. }
  assert (H3 : returned
                 (handle_update_chroma_event
                    (fun p => Some [mkDocument "abc" {["source" := VStr p]}])
                    (fun d => d) ["data/a.pdf"] "sid" ∅)
               = true) by (vm_compute; reflexivity).
  split; [exact H3|].
  exact (f_equal published
           (update_event_twice
              (fun p => Some [mkDocument "abc" {["source" := VStr p]}])
              (fun d => d) ["data/a.pdf"] "sid" ∅ _ H1 H2 H3)).
Defined.

(** * The page routes *)

Section RoutesFacts.

Implicit Types (st : site) (rows : list ChatMessage.t) (m : ChatMessage.t).

Lemma chat_name_inj (a b : nat) : chat_name a = chat_name b -> a = b.
Proof.
  unfold chat_name. intros H. apply (inj (String.app "chat_")) in H.
  by apply (inj pretty) in H.
Qed.

Lemma elem_of_distinct_chats rows chat :
  chat ∈ distinct_chats rows <-> exists m, m ∈ rows /\ ChatMessage.chat_id m = chat.
Proof.
  unfold distinct_chats. rewrite merge_sort_Permutation, elem_of_remove_dups.
  change (map ?f rows) with (f <$> rows). rewrite list_elem_of_fmap.
  naive_solver.
Qed.

Lemma filter_chat_nil rows chat :
  chat ∉ distinct_chats rows ->
  filter (fun m => ChatMessage.chat_id m = chat) rows = [].
Proof.
  intros H. apply filter_none, Forall_forall. intros m Hm E.
  apply H. apply elem_of_distinct_chats. eauto.
Qed.

Lemma filter_other_twice rows chat :
  filter (fun m => ChatMessage.chat_id m <> chat)
    (filter (fun m => ChatMessage.chat_id m <> chat) rows)
  = filter (fun m => ChatMessage.chat_id m <> chat) rows.
Proof.
  induction rows as [|m rows IH]; [done|].
  destruct (decide (ChatMessage.chat_id m <> chat)).
  - rewrite !(filter_cons_True _ m) by done. by rewrite IH.
  - by rewrite filter_cons_False.
Qed.

Lemma filter_chat_cleared rows chat :
  filter (fun m => ChatMessage.chat_id m = chat)
    (filter (fun m => ChatMessage.chat_id m <> chat) rows)
  = [].
Proof.
  apply filter_none, Forall_forall.
  by intros m [? _]%list_elem_of_filter.
Qed.

End RoutesFacts.

(** X14.  A new chat gets a name no stored chat has, when the stored chats
    are named [chat_1] to [chat_n]: [index] then shows it with an empty
    conversation, and the chat is not in the sidebar list, where it only
    appears once a message of it is stored. *)
Theorem new_chat_fresh (models : http_answer) (st : site) :
  Forall (fun c => exists k,
              (1 <= k <= length (distinct_chats (table st)))%nat
              /\ c = chat_name k)
         (distinct_chats (table st)) ->
  let pg := snd (index models (new_chat st)) in
  page_chat pg = chat_name (length (distinct_chats (table st)) + 1)
  /\ (page_chat pg ∉ chats pg)
  /\ conversation pg = [].
Proof.
  intros H pg. subst pg. unfold index, new_chat. cbn [snd table session].
  unfold current_chat. rewrite lookup_insert_eq. cbn [default].
  cbn [page_chat chats conversation].
  assert (N : chat_name (length (distinct_chats (table st)) + 1)
              ∉ distinct_chats (table st)).
  { intros Hin. rewrite Forall_forall in H.
    destruct (H _ Hin) as (k & Hk & E). apply chat_name_inj in E. lia. }
  split; [done|]. split; [done|]. by rewrite filter_chat_nil.
Qed.

Lemma new_chat_fresh_witness :
  Forall (fun c => exists k,
              (1 <= k <= length
                          (distinct_chats
                             [ChatMessage.mk 1 "chat_1" "user" "hi" 1;
                              ChatMessage.mk 2 "chat_2" "user" "yo" 2]))%nat
              /\ c = chat_name k)
         (distinct_chats [ChatMessage.mk 1 "chat_1" "user" "hi" 1;
                          ChatMessage.mk 2 "chat_2" "user" "yo" 2])
  /\ page_chat
       (snd (index RequestFails
               (new_chat (mkSite [ChatMessage.mk 1 "chat_1" "user" "hi" 1;
                                  ChatMessage.mk 2 "chat_2" "user" "yo" 2]
                                 ∅))))
     = chat_name (length
                    (distinct_chats
                       [ChatMessage.mk 1 "chat_1" "user" "hi" 1;
                        ChatMessage.mk 2 "chat_2" "user" "yo" 2]) + 1).
Proof.
  assert (H : Forall (fun c => exists k,
              (1 <= k <= length
                          (distinct_chats
                             [ChatMessage.mk 1 "chat_1" "user" "hi" 1;
                              ChatMessage.mk 2 "chat_2" "user" "yo" 2]))%nat
              /\ c = chat_name k)
         (distinct_chats [ChatMessage.mk 1 "chat_1" "user" "hi" 1;
                          ChatMessage.mk 2 "chat_2" "user" "yo" 2])).
  { replace (distinct_chats [ChatMessage.mk 1 "chat_1" "user" "hi" 1;
                             ChatMessage.mk 2 "chat_2" "user" "yo" 2])
      with ["chat_1"; "chat_2"] by (vm_compute; reflexivity).
    constructor; [exists 1%nat; split; [simpl; lia|reflexivity]|].
    constructor; [exists 2%nat; split; [simpl; lia|reflexivity]|].
    constructor. }
  split; [exact H|].
  exact (proj1 (new_chat_fresh RequestFails
                  (mkSite [ChatMessage.mk 1 "chat_1" "user" "hi" 1;
                           ChatMessage.mk 2 "chat_2" "user" "yo" 2] ∅) H)).
Defined.


(** X16.  [clear_conversation] followed by a query in the same chat: the
    rows of other chats are as they were, none of the current chat is
    left, and the history block of the prompt holds the current exchange
    alone, the line of the question and the line of the placeholder. *)
Theorem clear_then_submit
    (markdown : string -> string) (query : string) (clock : Z * Z)
    (results : list (Document * score)) (llm : string -> token_stream)
    (st : site) :
  fst clock ≤ snd clock ->
  let chat := current_chat (session st) in
  let st' := clear_conversation st in
  filter (fun m => ChatMessage.chat_id m <> chat) (table st')
  = filter (fun m => ChatMessage.chat_id m <> chat) (table st)
  /\ filter (fun m => ChatMessage.chat_id m = chat) (table st') = []
  /\ model_calls
       (fst (handle_submit_query markdown query chat clock results llm
               (world_of st')))
     = [format_prompt
          ("User: " +:+ query +:+ nl +:+ "Assistant: Generating...")
          (docs_text results) query].
Proof.
  intros Hclock chat st'. subst st'. unfold clear_conversation.
  cbn [table session]. fold chat.
  split; [apply filter_other_twice|]. split; [apply filter_chat_cleared|].
  rewrite handle_submit_query_run. cbv zeta.
  assert (P : prompt_of
                (world_of
                   (mkSite
                      (filter (fun m => ChatMessage.chat_id m <> chat)
                              (table st)) (session st)))
                query chat clock results
              = format_prompt
                  ("User: " +:+ query +:+ nl +:+ "Assistant: Generating...")
                  (docs_text results) query).
  { unfold prompt_of, history_of, world_of. cbn [messages table]. f_equal.
    rewrite filter_app, filter_chat_cleared.
    rewrite (filter_cons_True _ (user_row _ _ _ _)) by done.
    rewrite (filter_cons_True _ (placeholder_row _ _ _ _)) by done.
    rewrite filter_nil. cbn [app].
    unfold order_by_timestamp. cbn [foldr insert_by_timestamp].
    rewrite decide_True by done. reflexivity. }
  rewrite P. destruct (snd (llm _)); [|done].
  by destruct (format_sources (sources results)).
Qed.

Lemma clear_then_submit_witness :
  fst (5, 6) ≤ snd (5, 6)
  /\ model_calls
       (fst (handle_submit_query (fun s => s) "why?" "chat_1" (5, 6) []
               (fun _ => (["ok"], EndOfStream))
               (world_of
                  (clear_conversation
                     (mkSite [ChatMessage.mk 1 "chat_1" "user" "hello" 1;
                              ChatMessage.mk 2 "chat_2" "user" "later" 9]
                             ∅)))))
     = [format_prompt
          ("User: " +:+ "why?" +:+ nl +:+ "Assistant: Generating...")
          (docs_text []) "why?"].
Proof.
  assert (H : fst (5, 6) ≤ snd (5, 6)) by (simpl; lia).
  split; [exact H|].
  exact (proj2 (proj2 (clear_then_submit (fun s => s) "why?" (5, 6) []
                         (fun _ => (["ok"], EndOfStream))
                         (mkSite [ChatMessage.mk 1 "chat_1" "user" "hello" 1;
                                  ChatMessage.mk 2 "chat_2" "user" "later" 9]
                                 ∅) H))).
Defined.

(** * More on the query handler *)

Section HandlerFacts.

Implicit Types (w : world) (rows l : list ChatMessage.t)
  (m : ChatMessage.t).

Lemma fresh_id_gt rows m :
  m ∈ rows -> (ChatMessage.id m < fresh_id rows)%nat.
Proof.
  unfold fresh_id. induction rows as [|x rows IH]; simpl.
  - by intros ?%elem_of_nil.
  - intros [->|H]%elem_of_cons; [lia|]. specialize (IH H). lia.
Qed.

Lemma set_content_other rows (i : nat) (c : string) :
  (forall m, m ∈ rows -> ChatMessage.id m <> i) ->
  map (fun m => if decide (ChatMessage.id m = i)
                then ChatMessage.with_content m c else m) rows
  = rows.
Proof.
  induction rows as [|x rows IH]; intros H; [done|]. simpl.
  rewrite decide_False by (apply H; by left).
  f_equal. apply IH. intros m Hm. apply H. by right.
Qed.

(** The rows after the final answer is written: only the placeholder has
    changed. *)
Lemma set_content_placeholder w query chat clock (c : string) :
  map (fun m => if decide (ChatMessage.id m
                           = placeholder_id w query chat (fst clock))
                then ChatMessage.with_content m c else m)
      (messages w ++ [user_row w query chat (fst clock);
                      placeholder_row w query chat clock])
  = messages w ++ [user_row w query chat (fst clock);
                   ChatMessage.with_content
                     (placeholder_row w query chat clock) c].
Proof.
  assert (U : (ChatMessage.id (user_row w query chat (fst clock))
               < placeholder_id w query chat (fst clock))%nat).
  { apply fresh_id_gt. apply elem_of_app. right. by left. }
  rewrite map_app. f_equal.
  - apply set_content_other. intros m Hm.
    assert ((ChatMessage.id m < placeholder_id w query chat (fst clock))%nat);
      [|lia].
    apply fresh_id_gt. apply elem_of_app. by left.
  - cbn [map]. rewrite decide_False by lia.
    by rewrite decide_True by done.
Qed.

Lemma insert_by_timestamp_perm m l : insert_by_timestamp m l ≡ₚ m :: l.
Proof.
  induction l as [|x l IH]; simpl; [done|].
  case_decide; [done|]. rewrite IH. apply Permutation_swap.
Qed.

Lemma order_by_timestamp_perm l : order_by_timestamp l ≡ₚ l.
Proof.
  unfold order_by_timestamp. induction l as [|x l IH]; simpl; [done|].
  by rewrite insert_by_timestamp_perm, IH.
Qed.

Lemma insert_by_timestamp_HdRel x m l :
  by_timestamp x m -> HdRel by_timestamp x l ->
  HdRel by_timestamp x (insert_by_timestamp m l).
Proof.
  intros Hxm Hl. destruct l as [|y l]; simpl; [by constructor|].
  case_decide; constructor; [done|]. by inversion Hl.
Qed.

Lemma insert_by_timestamp_sorted m l :
  Sorted by_timestamp l -> Sorted by_timestamp (insert_by_timestamp m l).
Proof.
  induction 1 as [|x l Hs IH Hd]; simpl.
  - by repeat constructor.
  - case_decide as Hle.
    + constructor; [by constructor|]. by constructor.
    + constructor; [done|]. apply insert_by_timestamp_HdRel; [|done].
      unfold by_timestamp. lia.
Qed.

Lemma order_by_timestamp_sorted l :
  Sorted by_timestamp (order_by_timestamp l).
Proof.
  unfold order_by_timestamp. induction l as [|x l IH]; simpl.
  - constructor.
  - by apply insert_by_timestamp_sorted.
Qed.

Lemma Sorted_drop_ts (n : nat) l :
  Sorted by_timestamp l -> Sorted by_timestamp (drop n l).
Proof.
  revert l. induction n as [|n IH]; intros l H; [by rewrite drop_0|].
  destruct l as [|x l]; [done|]. simpl. apply IH. by inversion H.
Qed.

End HandlerFacts.

(** X17.  A query never touches what is stored: whatever the outcome, the
    table afterwards is the table before with two rows appended, the user
    message and the assistant message of this query; no earlier row of any
    chat is changed or removed. *)
Theorem submit_appends_two_rows
    (markdown : string -> string) (query chat : string) (clock : Z * Z)
    (results : list (Document * score)) (llm : string -> token_stream)
    (w : world) :
  exists answer,
    messages
      (fst (handle_submit_query markdown query chat clock results llm w))
    = messages w
      ++ [ChatMessage.mk (fresh_id (messages w)) chat "user" query
            (fst clock);
          ChatMessage.mk (placeholder_id w query chat (fst clock)) chat
            "assistant" answer (snd clock)].
Proof.
  rewrite handle_submit_query_run. cbv zeta.
  destruct (snd (llm _)).
  - destruct (format_sources (sources results)) as [e|fs].
    + by exists "Generating...".
    + eexists. cbn [fst messages]. by rewrite set_content_placeholder.
  - by exists "Generating...".
Qed.

(** X18.  What is stored agrees with what was published.  When the
    handler returns, the last event of the room is the final response and
    the content of the assistant row is the text that event carries; when
    it raises, the assistant row still reads [Generating...] and none of
    the events of this run is a final response. *)
Theorem stored_answer_is_published
    (markdown : string -> string) (query chat : string) (clock : Z * Z)
    (results : list (Document * score)) (llm : string -> token_stream)
    (w : world) :
  let run := handle_submit_query markdown query chat clock results llm w in
  match snd run with
  | inr _ =>
      exists html,
        last (emitted (fst run))
        = Some (chat, FinalResponse html
                        (placeholder_id w query chat (fst clock)))
        /\ ChatMessage.content <$> last (messages (fst run)) = Some html
  | inl _ =>
      ChatMessage.content <$> last (messages (fst run))
      = Some "Generating..."
      /\ Forall (fun e => is_final e = false)
                (drop (length (emitted w)) (emitted (fst run)))
  end.
Proof.
  intros run. subst run. rewrite handle_submit_query_run. cbv zeta.
  destruct (snd (llm _)).
  - destruct (format_sources (sources results)) as [e|fs]; cbn [fst snd].
    + cbn [messages emitted]. rewrite last_app. split; [done|].
      rewrite drop_app_length. constructor; [done|].
      apply token_events_not_final.
    + eexists. cbn [messages emitted]. rewrite last_snoc. split; [done|].
      rewrite set_content_placeholder. by rewrite last_app.
  - cbn [fst snd messages emitted]. rewrite last_app. split; [done|].
    rewrite drop_app_length. constructor; [done|].
    apply token_events_not_final.
Qed.

(** X19.  The history block is bounded and ordered: it holds the rows of
    the chat only, in nondecreasing timestamp order, and as many of them
    as the chat has stored rows plus the two of this query, up to 10. *)
Theorem history_bounded_sorted
    (w : world) (query chat : string) (clock : Z * Z) :
  let h := history_of w query chat clock in
  length h
  = Nat.min 10
      (length (filter (fun m => ChatMessage.chat_id m = chat) (messages w))
       + 2)
  /\ Forall (fun m => ChatMessage.chat_id m = chat) h
  /\ Sorted by_timestamp h.
Proof.
  intros h. subst h. unfold history_of, last_n.
  set (rows := filter _ (messages w ++ _)).
  assert (L : length rows
              = (length (filter (fun m => ChatMessage.chat_id m = chat)
                           (messages w)) + 2)%nat).
  { subst rows. rewrite filter_app, length_app.
    rewrite (filter_cons_True _ (user_row _ _ _ _)) by done.
    by rewrite (filter_cons_True _ (placeholder_row _ _ _ _)) by done. }
  assert (P := order_by_timestamp_perm rows).
  split; [|split].
  - rewrite length_drop, P, L. lia.
  - apply Forall_drop. rewrite P. subst rows. apply Forall_forall.
    by intros m [? _]%list_elem_of_filter.
  - apply Sorted_drop_ts, order_by_timestamp_sorted.
Qed.

(** X20.  When no retrieved result passes the threshold, the prompt says
    so in its context block, and the answer of a stream that ends is the
    rendered text of the tokens alone, without a sources list. *)
Theorem no_relevant_context
    (markdown : string -> string) (query chat : string) (clock : Z * Z)
    (results : list (Document * score)) (llm : string -> token_stream)
    (w : world) (tokens : list string) :
  Forall (fun r => passes (snd r) = false) results ->
  llm (prompt_of w query chat clock results) = (tokens, EndOfStream) ->
  let run := handle_submit_query markdown query chat clock results llm w in
  docs_text results = "No relevant documents found."
  /\ snd run = inr tt
  /\ last (emitted (fst run))
     = Some (chat, FinalResponse (markdown (accumulate tokens))
                     (placeholder_id w query chat (fst clock))).
Proof.
  intros Hnone Hllm run. subst run.
  assert (R : relevant results = []).
  { unfold relevant. rewrite filter_none; [done|].
    eapply Forall_impl; [exact Hnone|]. intros r Hr. by rewrite Hr. }
  assert (D : docs_text results = "No relevant documents found.")
    by (unfold docs_text; by rewrite R).
  split; [done|].
  rewrite handle_submit_query_run. cbv zeta. rewrite Hllm. cbn [fst snd].
  unfold sources. rewrite R. cbn [map format_sources sources_loop].
  cbn [fst snd emitted formatted_response]. split; [done|].
  by rewrite last_snoc.
Qed.

Lemma no_relevant_context_witness :
  Forall (fun r : Document * score => passes (snd r) = false)
    [(mkDocument "far" {["id" := VStr "a.pdf:0:0"]}, threshold)]
  /\ (fun _ : string => (["The"; " answer"], EndOfStream))
       (prompt_of empty_world "why?" "chat_1" (5, 6)
          [(mkDocument "far" {["id" := VStr "a.pdf:0:0"]}, threshold)])
     = (["The"; " answer"], EndOfStream)
  /\ docs_text [(mkDocument "far" {["id" := VStr "a.pdf:0:0"]}, threshold)]
     = "No relevant documents found.".
Proof.
  assert (H : Forall (fun r : Document * score => passes (snd r) = false)
                [(mkDocument "far" {["id" := VStr "a.pdf:0:0"]}, threshold)])
    by (repeat constructor).
  split; [exact H|]. split; [reflexivity|].
  exact (proj1 (no_relevant_context (fun s => s) "why?" "chat_1" (5, 6) _
                  (fun _ => (["The"; " answer"], EndOfStream)) empty_world
                  ["The"; " answer"] H eq_refl)).
Defined.

(** * Citations of ingested chunks *)

Section Segments.

Lemma re_split_cons (s : string) : exists seg segs, re_split s = seg :: segs.
Proof.
  induction s as [|a s (seg & segs & IH)]; simpl; [eauto|].
  destruct (is_sep a); [eauto|]. rewrite IH. eauto.
Qed.

(** Splitting goes through a separator. *)
Lemma re_split_app_sep (s t : string) (a : ascii) :
  is_sep a = true ->
  re_split (s +:+ String a t) = re_split s ++ re_split t.
Proof.
  intros Ha. induction s as [|b s IH].
  - rewrite app_nil_l_s. simpl. by rewrite Ha.
  - rewrite app_cons_s. cbn [re_split]. rewrite IH.
    destruct (is_sep b); [done|].
    by destruct (re_split_cons s) as (seg & segs & ->).
Qed.

Lemma re_split_no_sep (k : string) :
  all_chars not_sep k = true -> re_split k = [k].
Proof.
  induction k as [|a k IH]; [done|]. simpl. unfold not_sep at 1.
  destruct (is_sep a); [done|]. simpl. intros H. by rewrite IH.
Qed.

Lemma numeric_not_sep (a : ascii) : numeric_char a = true -> not_sep a = true.
Proof.
  unfold not_sep, is_sep.
  destruct (Ascii.eqb a "092") eqn:E1; [apply Ascii.eqb_eq in E1; by subst|].
  destruct (Ascii.eqb a ":") eqn:E2; [apply Ascii.eqb_eq in E2; by subst|].
  done.
Qed.

Lemma fmt_identifier_no_sep (c : Document) :
  chunk_typed c = true ->
  all_chars not_sep (fmt (chunk_identifier c)) = true.
Proof.
  intros [[z ->]| ->]%chunk_identifier_typed; [|done].
  eapply all_chars_weaken; [apply numeric_not_sep|apply pretty_Z_numeric].
Qed.

Lemma index_from_end_3 {A} (l : list A) (x k n : A) :
  index_from_end ((l ++ [x]) ++ [k; n]) 3 = inr x.
Proof.
  unfold index_from_end. rewrite !length_app. simpl.
  rewrite decide_True by lia.
  replace (length l + 1 + 2 - 3)%nat with (length l + 0)%nat by lia.
  rewrite <- app_assoc. by rewrite lookup_app_r, Nat.add_0_r, Nat.sub_diag by lia.
Qed.

(** Joining the segments with colons gives the string back, when it has no
    backslash. *)
Lemma join_re_split (s : string) :
  all_chars not_backslash s = true -> join colon (re_split s) = s.
Proof.
  induction s as [|a s IH]; [done|]. simpl.
  unfold not_backslash at 1, is_sep.
  destruct (Ascii.eqb a "092") eqn:E1; [done|]. simpl. intros H.
  specialize (IH H). destruct (re_split_cons s) as (seg & segs & Hs).
  rewrite Hs in *. destruct (Ascii.eqb a ":") eqn:E2.
  - apply Ascii.eqb_eq in E2. subst a.
    change (join colon (EmptyString :: seg :: segs))
      with (EmptyString +:+ colon +:+ join colon (seg :: segs)).
    by rewrite IH.
  - destruct segs as [|seg' segs].
    + simpl in *. by subst.
    + change (join colon (String a seg :: seg' :: segs))
        with (String a seg +:+ colon +:+ join colon (seg' :: segs)).
      rewrite app_cons_s. f_equal. exact IH.
Qed.

End Segments.

(** X21.  The citation step fits the identifiers the ingestor writes: for
    the identifier of a chunk whose source is a string and whose position
    is an integer, the step does not raise, and the label it looks for is
    the last component of the source path, the part after the last
    backslash or colon; it lists the label unless the text of the list
    already contains it. *)
Theorem ingested_id_cited
    (chunks : list Document) (i : nat) (c : Document)
    (id formatted_sources : string) :
  chunks !! i = Some c ->
  chunk_typed c = true ->
  chunk_ids chunks !! i = Some (Some id) ->
  exists label,
    last (re_split (fmt (chunk_source c))) = Some label
    /\ source_step formatted_sources (Some (VStr id))
       = inr (if contains label formatted_sources
              then formatted_sources
              else formatted_sources +:+ list_item label).
Proof.
  intros Hc Tc (c' & r & Hc' & _ & [= ->])%chunk_ids_lookup.
  rewrite Hc in Hc'. injection Hc' as <-.
  destruct (re_split_cons (fmt (chunk_source c))) as (seg & segs & Hsrc).
  destruct (last (seg :: segs)) as [label|] eqn:L;
    [|by apply last_None in L].
  exists label. rewrite Hsrc. split; [done|].
  apply last_Some in L as [l' Hl'].
  assert (S : re_split (current_identifier c +:+ colon
                        +:+ pretty (current_idx (fst r)))
              = (l' ++ [label])
                ++ [fmt (chunk_identifier c); pretty (current_idx (fst r))]).
  { unfold current_identifier, colon. rewrite !app_assoc_s.
    rewrite !app_cons_s, !app_nil_l_s.
    rewrite re_split_app_sep by done. rewrite Hsrc, Hl'. f_equal.
    rewrite re_split_app_sep by done.
    rewrite (re_split_no_sep (fmt _)) by (by apply fmt_identifier_no_sep).
    rewrite re_split_no_sep; [done|].
    eapply all_chars_weaken; [apply numeric_not_sep|apply pretty_nat_numeric]. }
  unfold source_step.
  assert (truthy (VStr (current_identifier c +:+ colon
                        +:+ pretty (current_idx (fst r)))) = true) as ->.
  { unfold current_identifier. by destruct (fmt (chunk_source c)). }
  rewrite S. rewrite decide_True by (rewrite !length_app; simpl; lia).
  rewrite index_from_end_3.
  by destruct (contains label formatted_sources).
Qed.

Lemma ingested_id_cited_witness :
  [offset_chunk "abc" "data\report.pdf" 0] !! 0%nat
  = Some (offset_chunk "abc" "data\report.pdf" 0)
  /\ chunk_typed (offset_chunk "abc" "data\report.pdf" 0) = true
  /\ chunk_ids [offset_chunk "abc" "data\report.pdf" 0] !! 0%nat
     = Some (Some "data\report.pdf:0:0")
  /\ exists label,
       last (re_split
               (fmt (chunk_source (offset_chunk "abc" "data\report.pdf" 0))))
       = Some label
       /\ source_step EmptyString (Some (VStr "data\report.pdf:0:0"))
          = inr (if contains label EmptyString then EmptyString
                 else EmptyString +:+ list_item label).
Proof.
  split; [reflexivity|]. split; [reflexivity|]. split; [reflexivity|].
  exact (ingested_id_cited [offset_chunk "abc" "data\report.pdf" 0] 0
           (offset_chunk "abc" "data\report.pdf" 0) "data\report.pdf:0:0"
           EmptyString eq_refl eq_refl eq_refl).
Defined.

(** X22.  [re_split] loses nothing of an identifier without backslash:
    joining its segments with colons gives the identifier back, and it has
    at least one segment. *)
Theorem re_split_round_trip (s : string) :
  all_chars not_backslash s = true ->
  join colon (re_split s) = s /\ re_split s <> [].
Proof.
  intros H. split; [by apply join_re_split|].
  by destruct (re_split_cons s) as (seg & segs & ->).
Qed.

Lemma re_split_round_trip_witness :
  all_chars not_backslash "data/report.pdf:12:0" = true
  /\ join colon (re_split "data/report.pdf:12:0") = "data/report.pdf:12:0".
Proof.
  split; [reflexivity|].
  exact (proj1 (re_split_round_trip "data/report.pdf:12:0" eq_refl)).
Defined.
(** * The history block and the clock *)



